(** * Dependency-graph visualizer (project2/depgraph3.py)

    A shallow embedding of the graph construction and rendering engine of
    [DependencyGraphVisualizer]: the substring filter, the bounded
    breadth-first traversal, the ASCII tree printer and the D2 diagram
    serializer, together with the properties stated about them.

    Modelling conventions.
    - A Python [str] is a [string], the bytes of its UTF-8 encoding;
      [str.lower] is a parameter ([StrLower]).
    - A Python [int] is a [Z].
    - A dependency record (a dict with the keys groupId, artifactId and
      version) is the record [Dep].
    - [self.dependency_graph], a [dict] that is iterated in insertion order,
      is an association list with the dict's assignment semantics.
    - [self.visited_packages] and the [visited] argument of the tree printer,
      Python [set]s, are [gset string].
    - The [deque] is a list: [popleft] takes the head, [append] adds at the
      end.
    - What [print] writes is a list of lines. *)

From Stdlib Require Import ZArith Lia Ascii String.
From stdpp Require Import gmap strings list sorting pretty.

Local Open Scope Z_scope.

(** ** Python string operations *)

Module PyStr.

(** [c.lower()] for a character of the ASCII range: the letters A-Z are
    folded, every other byte is kept. *)
Definition ascii_lower_char (c : ascii) : ascii :=
  let n := Ascii.nat_of_ascii c in
  if ((65 <=? n)%nat && (n <=? 90)%nat)%bool
  then Ascii.ascii_of_nat (n + 32)
  else c.

(** [s.lower()] for a string of ASCII characters. On such strings it is
    what Python computes; it is used to evaluate examples only. *)
Fixpoint ascii_lower (s : string) : string :=
  match s with
  | EmptyString => EmptyString
  | String c s' => String (ascii_lower_char c) (ascii_lower s')
  end.

(** [s.startswith(p)]. *)
Fixpoint startswith (p s : string) : bool :=
  match p, s with
  | EmptyString, _ => true
  | String _ _, EmptyString => false
  | String a p', String b s' =>
      if Ascii.eqb a b then startswith p' s' else false
  end.

(** [needle in hay] on strings: substring test. *)
Fixpoint contains (needle hay : string) : bool :=
  if startswith needle hay then true
  else match hay with
       | EmptyString => false
       | String _ hay' => contains needle hay'
       end.

(** [s.split(sep)] for a one-character separator: the pieces between
    the occurrences of [sep], always at least one piece. *)
Fixpoint split (sep : ascii) (s : string) : list string :=
  match s with
  | EmptyString => [EmptyString]
  | String c s' =>
      if Ascii.eqb c sep then EmptyString :: split sep s'
      else match split sep s' with
           | piece :: pieces => String c piece :: pieces
           | [] => [String c EmptyString]
           end
  end.

(** [s * n]: repetition; a count below one gives the empty string. *)
Fixpoint repeat_nat (s : string) (n : nat) : string :=
  match n with
  | O => EmptyString
  | S n' => s +:+ repeat_nat s n'
  end.

Definition repeat (s : string) (n : Z) : string := repeat_nat s (Z.to_nat n).

(** The concatenation of a list of strings, in order. *)
Definition joined (chunks : list string) : string :=
  fold_right String.append EmptyString chunks.

End PyStr.

(** [s.lower()]. Python folds every cased letter of Unicode, by the tables
    of the interpreter and not character by character. The development does
    not fix these tables: it takes the function as a parameter, and what it
    proves holds for every choice of it. *)
Class StrLower := str_lower : string -> string.

(** The folding of the ASCII letters, for the examples, whose strings are
    ASCII. *)
Global Instance ascii_str_lower : StrLower | 1000 := PyStr.ascii_lower.

(** ** Data model *)

(** A dependency record as the dependency source returns it: the texts of
    the groupId, artifactId and version elements. *)
Record Dep := mkDep {
  groupId : string;
  artifactId : string;
  version : string
}.

(** [f"{dep['groupId']}:{dep['artifactId']}"]: the coordinate of a record,
    the key under which it is looked up in the graph. *)
Definition dep_key (dep : Dep) : string :=
  groupId dep +:+ ":" +:+ artifactId dep.

(** [f"{dep['groupId']}:{dep['artifactId']}:{dep['version']}"]. *)
Definition dep_str (dep : Dep) : string :=
  groupId dep +:+ ":" +:+ artifactId dep +:+ ":" +:+ version dep.

(** [self.config['mode']]. *)
Inductive Mode := Remote | Test.

(** The entries of [self.config] that the engine reads. *)
Record Config := mkConfig {
  package_name : string;
  max_depth : Z;
  filter_substring : option string;
  mode : Mode
}.

(** *** The graph: a dict in insertion order *)

Module Dict.

Definition t := list (string * list Dep).

(** [k in d]. *)
Fixpoint mem (k : string) (d : t) : bool :=
  match d with
  | [] => false
  | (k', _) :: d' => if String.eqb k' k then true else mem k d'
  end.

(** [d[k]] for a key that is present, [d.get(k)] in general. *)
Fixpoint get (k : string) (d : t) : option (list Dep) :=
  match d with
  | [] => None
  | (k', v) :: d' => if String.eqb k' k then Some v else get k d'
  end.

(** [d[k] = v]: a present key keeps its position and takes the new
    value, a new key goes to the end. *)
Fixpoint set (k : string) (v : list Dep) (d : t) : t :=
  match d with
  | [] => [(k, v)]
  | (k', v') :: d' =>
      if String.eqb k' k then (k', v) :: d' else (k', v') :: set k v d'
  end.

(** [list(d)]: the keys in iteration order. *)
Definition keys (d : t) : list string := map fst d.

End Dict.

(** ** The filter *)

Section Filter.

Context {L : StrLower}.
Variable config : Config.

(** [_apply_filter]: the list itself when the substring is [None] or
    empty; otherwise a new list collecting, in order, the records whose
    lower-cased [group:artifact:version] contains the lower-cased
    substring. *)
Definition _apply_filter (dependencies : list Dep) : list Dep :=
  match filter_substring config with
  | None => dependencies
  | Some EmptyString => dependencies
  | Some substring =>
      let filter_str := str_lower substring in
      fold_left
        (fun filtered dep =>
           let dep_str := str_lower (dep_str dep) in
           if PyStr.contains filter_str dep_str
           then filtered ++ [dep]
           else filtered)
        dependencies []
  end.

End Filter.

(** The filter as the specification words it: keep the records whose
    case-folded composite contains the case-folded substring. *)
Definition matches_substring {L : StrLower} (substring : string) (dep : Dep)
    : bool :=
  PyStr.contains (str_lower substring) (str_lower (dep_str dep)).

(** ** The graph builder *)

(** How one call of [get_package_dependencies] used the dependency source:
    it returned before reaching it, the source raised and the exception was
    caught, or the source returned a list. *)
Inductive SourceCall :=
| NotCalled
| Failed
| Returned (dependencies : list Dep).

(** One iteration of the traversal loop that got past the visited check: the
    package and depth that line 257 prints, how the source was used, the
    list stored in the graph and the entries appended to the queue. *)
Record Expansion := mkExpansion {
  exp_package : string;
  exp_depth : Z;
  exp_call : SourceCall;
  exp_stored : list Dep;
  exp_enqueued : list (string * Z)
}.

(** The state of [build_dependency_graph]: the local [queue], the two
    attributes it resets and fills, the state of the outside world that the
    remote repository depends on, and the history of the iterations. The
    history is only written, never read, by the traversal. *)
Record BfsState (World : Type) := mkBfsState {
  queue : list (string * Z);
  dependency_graph : Dict.t;
  visited_packages : gset string;
  world : World;
  expansions : list Expansion
}.

Arguments mkBfsState {World} _ _ _ _ _.
Arguments queue {World} _.
Arguments dependency_graph {World} _.
Arguments visited_packages {World} _.
Arguments world {World} _.
Arguments expansions {World} _.

(** The state with [q] as its queue. *)
Definition with_queue {World} (q : list (string * Z)) (st : BfsState World)
    : BfsState World :=
{| queue := q;
   dependency_graph := dependency_graph st;
   visited_packages := visited_packages st;
   world := world st;
   expansions := expansions st |}.

(** The list that a call of [get_package_dependencies] returned. *)
Definition source_result (call : SourceCall) : list Dep :=
match call with
| Returned dependencies => dependencies
| NotCalled | Failed => []
end.

(** The call reached the dependency source. *)
Definition called (call : SourceCall) : bool :=
match call with
| NotCalled => false
| Failed | Returned _ => true
end.

(** The packages for which the dependency source was called, in the order
    of the calls, one occurrence per call. *)
Definition fetched_packages (history : list Expansion) : list string :=
map exp_package (List.filter (fun e => called (exp_call e)) history).

(** The queue entries that an expansion of a package with the stored list
    [dependencies] adds when the visited set is [visited]. *)
Definition new_entries (dependencies : list Dep) (visited : gset string)
    (next_depth : Z) : list (string * Z) :=
map (fun dep => (dep_key dep, next_depth))
    (filter (fun dep => dep_key dep ∉ visited) dependencies).

(** [reached graph root package d]: the stored lists of [graph] lead from
    [root] to [package] in [d] steps. *)
Inductive reached (graph : Dict.t) (root : string) : string -> Z -> Prop :=
| reached_root : reached graph root root 0
| reached_step (parent : string) (d : Z) (dependencies : list Dep) (dep : Dep) :
    reached graph root parent d ->
    Dict.get parent graph = Some dependencies ->
    dep ∈ dependencies ->
    reached graph root (dep_key dep) (d + 1).

(** [_get_test_dependencies]: the built-in table of the test mode, with its
    default entry for every other coordinate. *)
Definition _get_test_dependencies (group_id artifact_id : string) : list Dep :=
  let package_key := group_id +:+ ":" +:+ artifact_id in
  if String.eqb package_key "junit:junit" then
    [mkDep "org.hamcrest" "hamcrest-core" "2.2"]
  else if String.eqb package_key "org.springframework:spring-core" then
    [mkDep "commons-logging" "commons-logging" "1.2";
     mkDep "org.springframework" "spring-jcl" "5.3.23"]
  else if String.eqb package_key "org.springframework:spring-jcl" then
    [mkDep "org.slf4j" "slf4j-api" "1.7.36"]
  else if String.eqb package_key "org.hamcrest:hamcrest-core" then
    [mkDep "org.hamcrest" "hamcrest-library" "2.2"]
  else if String.eqb package_key "org.hamcrest:hamcrest-library" then
    [mkDep "junit" "junit" "4.13.2"]
  else if String.eqb package_key "com.example:my-app" then
    [mkDep "junit" "junit" "4.13.2";
     mkDep "org.springframework" "spring-core" "5.3.23";
     mkDep "com.google.guava" "guava" "31.1-jre"]
  else if String.eqb package_key "com.google.guava:guava" then
    [mkDep "com.google.guava" "failureaccess" "1.0.1";
     mkDep "com.google.guava" "listenablefuture"
           "9999.0-empty-to-avoid-conflict-with-guava"]
  else
    [mkDep "junit" "junit" "4.13.2";
     mkDep "org.slf4j" "slf4j-api" "1.7.36"].

Section Builder.

Context {World : Type}.
Context {L : StrLower}.

(** The remote repository: [_download_pom_file] followed by
    [_parse_dependencies_from_pom] for a group and an artifact. It reads
    the network, so its answer depends on the world and may change it;
    [None] stands for any exception raised by either of the two. *)
Variable remote_source : World -> string -> string -> World * option (list Dep).

Variable config : Config.

(** Lines 222-238 of [get_package_dependencies], below its depth guard: the
    new world, how the source was used, and the returned list. *)
Definition source_dependencies (w : World) (package : string)
    : World * SourceCall * list Dep :=
match PyStr.split ":" package with
| [group_id; artifact_id] =>
    match mode config with
    | Remote =>
        match remote_source w group_id artifact_id with
        | (w', Some dependencies) => (w', Returned dependencies, dependencies)
        | (w', None) => (w', Failed, [])
        end
    | Test =>
        let dependencies := _get_test_dependencies group_id artifact_id in
        (w, Returned dependencies, dependencies)
    end
| _ => (w, NotCalled, [])
end.

(** [get_package_dependencies]. *)
Definition get_package_dependencies (w : World) (package : string)
    (current_depth : Z) : World * SourceCall * list Dep :=
if current_depth >=? max_depth config then (w, NotCalled, [])
else source_dependencies w package.

(** The loop of lines 265-268: every record whose coordinate is not in
    the visited set is appended to the queue with the next depth. *)
Definition enqueue_dependencies (dependencies : list Dep)
    (visited : gset string) (next_depth : Z)
    (q : list (string * Z)) : list (string * Z) :=
fold_left
  (fun q dep =>
     let dep_key := dep_key dep in
     if decide (dep_key ∈ visited) then q else q ++ [(dep_key, next_depth)])
  dependencies q.

(** The body of the [while] loop after [popleft] returned
    [(current_package, depth)]; [st] holds the rest of the queue. *)
Definition bfs_iteration (current_package : string) (depth : Z)
    (st : BfsState World) : BfsState World :=
if decide (current_package ∈ visited_packages st) then st
else
  let visited := {[current_package]} ∪ visited_packages st in
  let '(w, call, dependencies) :=
    get_package_dependencies (world st) current_package depth in
  let dependencies := _apply_filter config dependencies in
  let graph := Dict.set current_package dependencies (dependency_graph st) in
  let queue' :=
    if depth + 1 <? max_depth config
    then enqueue_dependencies dependencies visited (depth + 1) (queue st)
    else queue st in
  {| queue := queue';
     dependency_graph := graph;
     visited_packages := visited;
     world := w;
     expansions :=
       expansions st ++
       [mkExpansion current_package depth call dependencies
          (drop (length (queue st)) queue')] |}.

(** [while queue: ...]; [fuel] bounds the number of iterations, [None]
    means the bound was reached with a non-empty queue. *)
Fixpoint bfs_loop (fuel : nat) (st : BfsState World) : option (BfsState World) :=
match queue st with
| [] => Some st
| (current_package, depth) :: rest =>
    match fuel with
    | O => None
    | S fuel' =>
        bfs_loop fuel' (bfs_iteration current_package depth (with_queue rest st))
    end
end.

(** The state on entry to the loop. *)
Definition initial_state (w : World) : BfsState World :=
  {| queue := [(package_name config, 0)];
     dependency_graph := [];
     visited_packages := ∅;
     world := w;
     expansions := [] |}.

(** [build_dependency_graph]. *)
Definition build_dependency_graph (fuel : nat) (w : World) : option (BfsState World) :=
  bfs_loop fuel (initial_state w).

(** The traversal returns [st]: some number of iterations is enough. *)
Definition build_returns (w : World) (st : BfsState World) : Prop :=
  exists fuel, build_dependency_graph fuel w = Some st.

End Builder.

(** *** The invariant of the traversal loop *)

Section Invariant.

Context {World : Type}.
Variable config : Config.

(** What holds of the state before and after every iteration: the graph has
    one key per expansion, in the order of the expansions, and these are the
    visited packages; every expansion's list is the graph entry of its
    package; every expanded package and every queue entry is reached from
    the root through stored lists in as many steps as its depth, and apart
    from the root at depth 0 the depths lie strictly between 0 and
    [max_depth]. *)
Record traversal_invariant (st : BfsState World) : Prop := {
  inv_keys :
    Dict.keys (dependency_graph st) = map exp_package (expansions st);
  inv_visited :
    forall k, k ∈ visited_packages st <-> k ∈ Dict.keys (dependency_graph st);
  inv_nodup : NoDup (Dict.keys (dependency_graph st));
  inv_stored :
    forall e, e ∈ expansions st ->
      Dict.get (exp_package e) (dependency_graph st) = Some (exp_stored e);
  inv_reached :
    forall e, e ∈ expansions st ->
      reached (dependency_graph st) (package_name config)
              (exp_package e) (exp_depth e);
  inv_depth :
    forall e, e ∈ expansions st ->
      (exp_package e = package_name config /\ exp_depth e = 0) \/
      (0 < exp_depth e < max_depth config);
  inv_queue_reached :
    forall e, e ∈ queue st ->
      reached (dependency_graph st) (package_name config) e.1 e.2;
  inv_queue_depth :
    forall e, e ∈ queue st ->
      e = (package_name config, 0) \/ (0 < e.2 < max_depth config)
}.

End Invariant.

(** *** The level order of the traversal *)

Section LevelOrder.

Context {World : Type}.
Context {L : StrLower}.
Variable config : Config.

(** What the first-in first-out queue adds to the invariant: every stored
    list is a result of the filter; the root occurs in the queue and in the
    history at depth 0 only; the queue is sorted by depth and spans at most
    two consecutive depths; no entry of the queue is shallower than an
    expansion already made, so the history is sorted by depth as well; and
    every stored dependency of an expanded package is expanded itself or
    waits in the queue, at most one level below the package, unless the
    package was expanded at the last level. *)
Record level_order_invariant (st : BfsState World) : Prop := {
  lo_filtered :
    forall e, e ∈ expansions st ->
      exp_stored e = _apply_filter config (source_result (exp_call e));
  lo_root :
    (package_name config ∈ visited_packages st) \/
    queue st = [(package_name config, 0)];
  lo_root_queue :
    forall q, q ∈ queue st -> q.1 = package_name config -> q.2 = 0;
  lo_root_expansion :
    forall e, e ∈ expansions st ->
      exp_package e = package_name config -> exp_depth e = 0;
  lo_first :
    expansions st = [] \/
    exists e history,
      expansions st = e :: history /\
      exp_package e = package_name config /\ exp_depth e = 0;
  lo_sorted : StronglySorted (fun a b => a.2 <= b.2) (queue st);
  lo_window :
    forall a b, a ∈ queue st -> b ∈ queue st -> b.2 <= a.2 + 1;
  lo_before :
    forall e q, e ∈ expansions st -> q ∈ queue st -> exp_depth e <= q.2;
  lo_history :
    StronglySorted (fun a b => exp_depth a <= exp_depth b) (expansions st);
  lo_pending :
    forall e dep, e ∈ expansions st -> dep ∈ exp_stored e ->
      (exists e', e' ∈ expansions st /\ exp_package e' = dep_key dep /\
                  exp_depth e' <= exp_depth e + 1) \/
      (exists q, q ∈ queue st /\ q.1 = dep_key dep /\ q.2 <= exp_depth e + 1) \/
      max_depth config <= exp_depth e + 1
}.

End LevelOrder.

(** *** The diamond of scenarios A and C, and the cycle of scenario B *)

Definition diamond_source (w : unit) (group_id artifact_id : string)
    : unit * option (list Dep) :=
  let package_key := group_id +:+ ":" +:+ artifact_id in
  if String.eqb package_key "a:a" then (w, Some [mkDep "b" "b" "1.0"; mkDep "c" "c" "1.0"])
  else if String.eqb package_key "b:b" then (w, Some [mkDep "d" "d" "1.0"])
  else if String.eqb package_key "c:c" then (w, Some [mkDep "d" "d" "1.0"])
  else if String.eqb package_key "d:d" then (w, Some [])
  else (w, None).

Definition diamond_config (depth : Z) : Config :=
  {| package_name := "a:a"; max_depth := depth;
     filter_substring := None; mode := Remote |}.

Definition cycle_source (w : unit) (group_id artifact_id : string)
    : unit * option (list Dep) :=
  let package_key := group_id +:+ ":" +:+ artifact_id in
  if String.eqb package_key "x:x" then (w, Some [mkDep "y" "y" "1.0"])
  else if String.eqb package_key "y:y" then (w, Some [mkDep "x" "x" "1.0"])
  else (w, None).

(** The graph that the traversal builds for the diamond with depth 3. *)
Definition diamond_graph : Dict.t :=
  [("a:a", [mkDep "b" "b" "1.0"; mkDep "c" "c" "1.0"]);
   ("b:b", [mkDep "d" "d" "1.0"]);
   ("c:c", [mkDep "d" "d" "1.0"]);
   ("d:d", [])].

(** The graph that scenario C of the specification expects for the diamond
    with depth 2. *)
Definition scenario_C_expected_graph : Dict.t :=
  [("a:a", [mkDep "b" "b" "1.0"; mkDep "c" "c" "1.0"]);
   ("b:b", []);
   ("c:c", [])].

(** A state in the middle of a traversal of the diamond repository: the root
    is expanded, and the queue holds a coordinate that the repository does
    not know, followed by one that it knows. *)
Definition midway_state : BfsState unit :=
  {| queue := [("z:z", 1); ("b:b", 1)];
     dependency_graph := [("a:a", [mkDep "z" "z" "1.0"; mkDep "b" "b" "1.0"])];
     visited_packages := {["a:a"]};
     world := tt;
     expansions := [] |}.

(** A state of the traversal of the diamond with depth 2, after the
    expansion of the root: both entries of the queue are at depth 1. *)
Definition boundary_state : BfsState unit :=
  {| queue := [("b:b", 1); ("c:c", 1)];
     dependency_graph := [("a:a", [mkDep "b" "b" "1.0"; mkDep "c" "c" "1.0"])];
     visited_packages := {["a:a"]};
     world := tt;
     expansions :=
       [mkExpansion "a:a" 0
          (Returned [mkDep "b" "b" "1.0"; mkDep "c" "c" "1.0"])
          [mkDep "b" "b" "1.0"; mkDep "c" "c" "1.0"]
          [("b:b", 1); ("c:c", 1)]] |}.

(** The graph of scenario B: a cycle of two packages. *)
Definition cycle_graph : Dict.t :=
  [("x:x", [mkDep "y" "y" "1.0"]);
   ("y:y", [mkDep "x" "x" "1.0"])].

Definition cycle_config : Config :=
  {| package_name := "x:x"; max_depth := 4;
     filter_substring := None; mode := Remote |}.

(** A configuration whose filter substring is in capitals. *)
Definition upper_filter_config : Config :=
  {| package_name := "a:a"; max_depth := 3;
     filter_substring := Some "TEST"; mode := Remote |}.

(** The configuration of scenario D: the filter substring [test]. *)
Definition filter_config : Config :=
  {| package_name := "a:a"; max_depth := 3;
     filter_substring := Some "test"; mode := Remote |}.

(** ** The tree printer *)

(** The line-feed character of the [\n] escapes. *)
Definition LF : string := String (Ascii.ascii_of_nat 10) EmptyString.

Section Renderer.

Variable config : Config.
Variable dependency_graph : Dict.t.

(** The [for i, dep in enumerate(dependencies)] loop of [_print_tree_node]
    for the package at [level] whose path set, after [visited.add], is
    [visited]. [node] is the recursive call; it is handed [visited.copy()],
    so the set it returns is the final content of the copy and is dropped.
    [i] is the index of the head of [remaining], [n] is
    [len(dependencies)]. *)
Fixpoint print_tree_children
    (node : string -> Z -> gset string -> option (list string * gset string))
    (level : Z) (visited : gset string) (n : Z) (i : Z) (remaining : list Dep)
    : option (list string) :=
  match remaining with
  | [] => Some []
  | dep :: remaining' =>
      let dep_key := dep_key dep in
      let is_last := i =? n - 1 in
      let new_indent := PyStr.repeat "  " (level + 1) in
      let connector := if is_last then "└── " else "├── " in
      let printed :=
        if level + 1 <? max_depth config
        then
          let copy := visited in
          match node dep_key (level + 1) copy with
          | Some (lines, _) => Some lines
          | None => None
          end
        else Some [new_indent +:+ connector +:+ dep_key +:+ " (глубина ограничена)"] in
      match printed with
      | Some lines =>
          match print_tree_children node level visited n (i + 1) remaining' with
          | Some lines' => Some (lines ++ lines')
          | None => None
          end
      | None => None
      end
  end.

(** [_print_tree_node]: the printed lines and the final content of the set
    object passed as [visited]. [fuel] bounds the nesting of the calls;
    [None] means the bound was reached. *)
Fixpoint _print_tree_node (fuel : nat) (package : string) (level : Z)
    (visited : gset string) : option (list string * gset string) :=
  match fuel with
  | O => None
  | S fuel' =>
      if decide (package ∈ visited) then
        let indent := PyStr.repeat "  " level in
        Some ([indent +:+ "└── " +:+ package +:+ " (циклическая зависимость)"],
              visited)
      else
        let visited := {[package]} ∪ visited in
        let indent := PyStr.repeat "  " level in
        let connector := if 0 <? level then "└── " else "" in
        let line := indent +:+ connector +:+ package in
        let below :=
          match Dict.get package dependency_graph with
          | Some dependencies =>
              print_tree_children (_print_tree_node fuel') level visited
                (Z.of_nat (length dependencies)) 0 dependencies
          | None => Some []
          end in
        match below with
        | Some lines => Some (line :: lines, visited ∖ {[package]})
        | None => None
        end
  end.

(** [print_ascii_tree]. *)
Definition print_ascii_tree (fuel : nat) : option (list string) :=
  match dependency_graph with
  | [] => Some ["Граф зависимостей пуст"]
  | _ :: _ =>
      let root_package := package_name config in
      match _print_tree_node fuel root_package 0 ∅ with
      | Some (lines, _) =>
          Some ((LF +:+ "Дерево зависимостей для: " +:+ root_package)
                  :: PyStr.repeat "=" 50 :: lines)
      | None => None
      end
  end.

(** The number of keys of the graph outside a path set: each call that
    recurses has put one more of them on the path. *)
Definition keys_off_path (visited : gset string) : nat :=
  length (filter (fun k => k ∉ visited) (Dict.keys dependency_graph)).

(** The lines a call of [_print_tree_node] prints, read off a run whose
    bound on the nesting is above the number of keys off the path. *)
Definition tree_lines (package : string) (level : Z) (visited : gset string)
    : list string :=
  match _print_tree_node (S (keys_off_path visited)) package level visited with
  | Some (lines, _) => lines
  | None => []
  end.

End Renderer.

(** ** The diagram serializer *)

Section Serializer.

Variable dependency_graph : Dict.t.

Definition d2_header : string :=
  "# Граф зависимостей Maven" +:+ LF +:+ LF +:+
  "direction: right" +:+ LF +:+
  "classes: {" +:+ LF +:+ "  style: {" +:+ LF +:+ "    stroke: green" +:+ LF +:+
  "    fill: lightgreen" +:+ LF +:+ "  }" +:+ LF +:+ "}" +:+ LF +:+ LF.

(** [f'"{package}"\n']. *)
Definition node_declaration (package : string) : string :=
  String (Ascii.ascii_of_nat 34) package +:+ String (Ascii.ascii_of_nat 34) LF.

(** [f'"{package}" -> "{dep_key}"\n']. *)
Definition edge_statement (package dep_key : string) : string :=
  String (Ascii.ascii_of_nat 34) package +:+ String (Ascii.ascii_of_nat 34) " -> " +:+
  String (Ascii.ascii_of_nat 34) dep_key +:+ String (Ascii.ascii_of_nat 34) LF.

(** [generate_d2_diagram]: the header, then the first loop over the keys,
    then the nested loops over the items and their lists, each step
    appending to [d2_content]. *)
Definition generate_d2_diagram : string :=
  let d2_content := d2_header in
  let d2_content :=
    fold_left
      (fun d2_content package => d2_content +:+ node_declaration package)
      (Dict.keys dependency_graph) d2_content in
  fold_left
    (fun d2_content '(package, dependencies) =>
       fold_left
         (fun d2_content dep =>
            d2_content +:+ edge_statement package (dep_key dep))
         dependencies d2_content)
    dependency_graph d2_content.

(** The stored adjacency pairs, in the order of the graph and of its
    lists. *)
Definition adjacency_pairs : list (string * string) :=
  flat_map (fun '(package, dependencies) =>
              map (fun dep => (package, dep_key dep)) dependencies)
           dependency_graph.

End Serializer.

(** The double-quote character. *)
Definition DQ : string := String (Ascii.ascii_of_nat 34) EmptyString.

(** The lines of a text: the pieces that end at a line feed, and what
    follows the last line feed when that is not empty. *)
Fixpoint text_lines (s : string) : list string :=
  match s with
  | EmptyString => []
  | String c s' =>
      if Ascii.eqb c (Ascii.ascii_of_nat 10) then EmptyString :: text_lines s'
      else match text_lines s' with
           | [] => [String c EmptyString]
           | line :: lines => String c line :: lines
           end
  end.

(** No line feed occurs in the string. *)
Fixpoint line_feed_free (s : string) : bool :=
  match s with
  | EmptyString => true
  | String c s' => negb (Ascii.eqb c (Ascii.ascii_of_nat 10)) && line_feed_free s'
  end.

(** A graph with one key, whose artifact part contains a line feed. *)
Definition line_feed_graph : Dict.t := [("a:" +:+ LF +:+ "b", [])].

(** ** Command-line arguments and configuration *)

(** The namespace that [argparse] returns: [--package], [--url],
    [--test-repo], [--tree], [--max-depth], [--filter], [--visualize]. *)
Record Args := mkArgs {
  arg_package : string;
  arg_url : option string;
  arg_test_repo : bool;
  arg_tree : bool;
  arg_max_depth : Z;
  arg_filter : option string;
  arg_visualize : bool
}.

(** The truth value of an optional string: [None] and the empty string are
    false. *)
Definition truthy (o : option string) : bool :=
  match o with
  | Some (String _ _) => true
  | Some EmptyString | None => false
  end.

(** [url.startswith('http://') or url.startswith('https://')]. *)
Definition has_web_scheme (url : string) : bool :=
  PyStr.startswith "http://" url || PyStr.startswith "https://" url.

(** The string that an f-string puts for an optional string. *)
Definition py_format (o : option string) : string :=
  match o with
  | Some s => s
  | None => "None"
  end.

(** The error messages that [_validate_arguments] collects, in order. *)
Definition validation_errors (args : Args) : list string :=
  let errors := [] in
  let errors :=
    if negb (PyStr.contains ":" (arg_package args))
    then errors ++ ["Неверный формат пакета: '" +:+ arg_package args
                    +:+ "'. Ожидается: groupId:artifactId"]
    else errors in
  let errors :=
    if arg_max_depth args <=? 0
    then errors ++ ["Максимальная глубина должна быть положительным числом"]
    else errors in
  if truthy (arg_url args)
     && negb (has_web_scheme (py_format (arg_url args)))
  then errors ++ ["Некорректный URL: " +:+ py_format (arg_url args)]
  else errors.

(** [_validate_arguments]: the namespace after the call (the test mode is
    switched on when no URL is given), the lines written to the standard
    error stream, and the returned truth value. *)
Definition _validate_arguments (args : Args) : Args * list string * bool :=
  let errors := validation_errors args in
  let args' :=
    if negb (truthy (arg_url args)) && negb (arg_test_repo args)
    then mkArgs (arg_package args) (arg_url args) true (arg_tree args)
                (arg_max_depth args) (arg_filter args) (arg_visualize args)
    else args in
  match errors with
  | [] => (args', [], true)
  | _ :: _ =>
      (args',
       "Ошибки в параметрах:" :: map (fun error => "  - " +:+ error) errors,
       false)
  end.

(** The entry that [_convert_args_to_config] adds for the repository:
    [repository_path] with [None] in test mode, [repository_url] with the
    URL argument otherwise. *)
Inductive Repository :=
| RepositoryPath
| RepositoryUrl (url : option string).

(** The dict that [_convert_args_to_config] returns: the entries that the
    engine reads, and the three others. *)
Record RunConfig := mkRunConfig {
  engine : Config;
  tree_output : bool;
  visualize : bool;
  repository : Repository
}.

(** [_convert_args_to_config]. *)
Definition _convert_args_to_config (args : Args) : RunConfig :=
  {| engine :=
       {| package_name := arg_package args;
          max_depth := arg_max_depth args;
          filter_substring := arg_filter args;
          mode := if arg_test_repo args then Test else Remote |};
     tree_output := arg_tree args;
     visualize := arg_visualize args;
     repository :=
       if arg_test_repo args then RepositoryPath
       else RepositoryUrl (arg_url args) |}.

(** ** The flat listing *)

(** [f"{i:2}"] applied to the decimal text of a number: right-aligned in a
    field of two characters. *)
Definition rjust2 (digits : string) : string :=
  PyStr.repeat " " (2 - Z.of_nat (String.length digits)) +:+ digits.

(** The [for i, dep in enumerate(dependencies, 1)] loop of
    [print_direct_dependencies], from the index [i] on. *)
Fixpoint direct_dependency_lines (i : Z) (dependencies : list Dep) : list string :=
  match dependencies with
  | [] => []
  | dep :: dependencies' =>
      (rjust2 (pretty i) +:+ ". " +:+ dep_str dep)
        :: direct_dependency_lines (i + 1) dependencies'
  end.

(** [print_direct_dependencies]: the printed lines. [Dict.get] gives [None]
    when the root is not in the graph. *)
Definition print_direct_dependencies (config : Config) (dependency_graph : Dict.t)
    : list string :=
  let root_package := package_name config in
  match Dict.get root_package dependency_graph with
  | None => ["Прямые зависимости не найдены"]
  | Some [] => ["Прямые зависимости не найдены"]
  | Some dependencies =>
      [LF +:+ "Прямые зависимости ("
          +:+ pretty (Z.of_nat (length dependencies)) +:+ "):";
       PyStr.repeat "-" 60]
      ++ direct_dependency_lines 1 dependencies
      ++ [PyStr.repeat "-" 60]
  end.

(** ** XML documents and the remote repository *)

(** An element of a parsed document, as [xml.etree.ElementTree] gives it:
    its tag (with the namespace in braces in front, when it has one), its
    text ([None] when there is none) and its child elements in document
    order. *)
Inductive Element :=
| mkElement (tag : string) (text : option string) (children : list Element).

Definition elem_tag (e : Element) : string :=
  match e with mkElement tag _ _ => tag end.

Definition elem_text (e : Element) : option string :=
  match e with mkElement _ text _ => text end.

Definition elem_children (e : Element) : list Element :=
  match e with mkElement _ _ children => children end.

(** [e.find(name)]: the first child with that tag. *)
Definition find (name : string) (e : Element) : option Element :=
  List.find (fun c => String.eqb (elem_tag c) name) (elem_children e).

(** [e.findall(name)]: the children with that tag, in document order. *)
Definition findall (name : string) (e : Element) : list Element :=
  List.filter (fun c => String.eqb (elem_tag c) name) (elem_children e).

(** The elements below [e] on all levels, in document order. *)
Fixpoint descendants (e : Element) : list Element :=
  match e with
  | mkElement _ _ children =>
      (fix below (l : list Element) : list Element :=
         match l with
         | [] => []
         | c :: l' => c :: descendants c ++ below l'
         end) children
  end.

(** [e.find('.//' + name)]: the first element below [e] with that tag. *)
Definition find_below (name : string) (e : Element) : option Element :=
  List.find (fun c => String.eqb (elem_tag c) name) (descendants e).

(** Induction on elements, with the property for all children at hand. *)
Fixpoint Element_children_ind (P : Element -> Prop)
    (step : forall tag text children,
        Forall P children -> P (mkElement tag text children))
    (e : Element) : P e :=
  match e with
  | mkElement tag text children =>
      step tag text children
        ((fix all (l : list Element) : Forall P l :=
            match l with
            | [] => @List.Forall_nil Element P
            | c :: l' =>
                @List.Forall_cons Element P c l'
                  (Element_children_ind P step c) (all l')
            end) children)
  end.

(** The tag of an element of the Maven namespace, which the path
    [maven:name] with the namespace map of the source stands for. *)
Definition maven_tag (name : string) : string :=
  "{http://maven.apache.org/POM/4.0.0}" +:+ name.

(** What a call gives: a value, or an exception that the function does not
    catch. *)
Inductive Outcome (A : Type) :=
| Returns (a : A)
| Raises.

Arguments Returns {A} _.
Arguments Raises {A}.

(** [max(first, *rest)] on strings: the first of the greatest elements in
    the lexicographic order of the characters. *)
Definition string_max (first : string) (rest : list string) : string :=
  fold_left (fun m v => if String.ltb m v then v else m) rest first.

(** The texts of a list of elements when none is [None]. *)
Fixpoint all_texts (texts : list (option string)) : option (list string) :=
  match texts with
  | [] => Some []
  | None :: _ => None
  | Some t :: texts' =>
      match all_texts texts' with
      | Some l => Some (t :: l)
      | None => None
      end
  end.

(** [s.replace(a, b)] for one-character [a] and [b]. *)
Fixpoint replace_char (a b : ascii) (s : string) : string :=
  match s with
  | EmptyString => EmptyString
  | String c s' => String (if Ascii.eqb c a then b else c) (replace_char a b s')
  end.

Section Repository.

Context {World : Type}.

(** [ET.fromstring]: the root element of a well-formed document; [None]
    stands for [ET.ParseError]. *)
Variable fromstring : string -> option Element.

(** [urllib.request.urlopen(url)] followed by [read().decode('utf-8')]: the
    new world and the text of the response; [None] stands for any exception
    on the way. *)
Variable urlopen : World -> string -> World * option string.

(** The record that the loop of [_parse_dependencies_from_pom] appends for
    a [dependency] element, if it appends one. The dict holds the texts of
    the elements, which may be [None]; every use of these values in the
    program is an f-string, so the record holds what the f-string prints. *)
Definition dependency_record (dep_elem : Element) : option Dep :=
  match find "groupId" dep_elem, find "artifactId" dep_elem with
  | Some group_id_elem, Some artifact_id_elem =>
      Some {| groupId := py_format (elem_text group_id_elem);
              artifactId := py_format (elem_text artifact_id_elem);
              version :=
                match find "version" dep_elem with
                | Some version_elem => py_format (elem_text version_elem)
                | None => "unknown"
                end |}
  | _, _ => None
  end.

(** [_parse_dependencies_from_pom]; [None] stands for the exception that it
    raises for a document that does not parse. *)
Definition _parse_dependencies_from_pom (pom_content : string)
    : option (list Dep) :=
  match fromstring pom_content with
  | None => None
  | Some root =>
      let dependencies_elem :=
        match find_below "dependencies" root with
        | Some e => Some e
        | None => find_below (maven_tag "dependencies") root
        end in
      match dependencies_elem with
      | None => Some []
      | Some dependencies_elem =>
          Some (fold_left
                  (fun dependencies dep_elem =>
                     match dependency_record dep_elem with
                     | Some dependency => dependencies ++ [dependency]
                     | None => dependencies
                     end)
                  (findall "dependency" dependencies_elem) [])
      end
  end.

(** [_parse_latest_version]. It returns [None] for a document that does not
    parse; it raises when a listed version has no text. *)
Definition _parse_latest_version (metadata_content : string)
    : Outcome (option string) :=
  match fromstring metadata_content with
  | None => Returns None
  | Some root =>
      match find "versioning" root with
      | None => Returns None
      | Some versioning =>
          match find "latest" versioning with
          | Some latest => Returns (elem_text latest)
          | None =>
              match find "release" versioning with
              | Some release => Returns (elem_text release)
              | None =>
                  match find "versions" versioning with
                  | None => Returns None
                  | Some versions =>
                      let version_list :=
                        map elem_text (findall "version" versions) in
                      match version_list with
                      | [] => Returns None
                      | _ :: _ =>
                          match all_texts version_list with
                          | None => Raises
                          | Some texts =>
                              let stable_versions :=
                                List.filter
                                  (fun v => negb (PyStr.contains "SNAPSHOT" v))
                                  texts in
                              match stable_versions, texts with
                              | v :: vs, _ => Returns (Some (string_max v vs))
                              | [], v :: vs => Returns (Some (string_max v vs))
                              | [], [] => Returns None
                              end
                          end
                      end
                  end
              end
          end
      end
  end.

(** [_download_pom_file]: the new world and the text of the POM; [None]
    stands for any exception, among them the [KeyError] for a configuration
    without [repository_url]. *)
Definition _download_pom_file (config : RunConfig) (w : World)
    (group_id artifact_id version : string) : World * option string :=
  match repository config with
  | RepositoryPath => (w, None)
  | RepositoryUrl url =>
      let base_url := py_format url in
      let group_path := replace_char "." "/" group_id in
      let located :=
        if String.eqb version "latest" then
          let metadata_url :=
            base_url +:+ "/" +:+ group_path +:+ "/" +:+ artifact_id
            +:+ "/maven-metadata.xml" in
          match urlopen w metadata_url with
          | (w1, Some metadata_content) =>
              match _parse_latest_version metadata_content with
              | Returns (Some (String c v)) => (w1, Some (String c v))
              | Returns (Some EmptyString) | Returns None | Raises => (w1, None)
              end
          | (w1, None) => (w1, None)
          end
        else (w, Some version) in
      match located with
      | (w1, Some version) =>
          let pom_url :=
            base_url +:+ "/" +:+ group_path +:+ "/" +:+ artifact_id +:+ "/"
            +:+ version +:+ "/" +:+ artifact_id +:+ "-" +:+ version +:+ ".pom" in
          urlopen w1 pom_url
      | (w1, None) => (w1, None)
      end
  end.

(** The [try] block of [get_package_dependencies] in remote mode: download
    with the default version [latest], then parse. *)
Definition remote_repository (config : RunConfig) (w : World)
    (group_id artifact_id : string) : World * option (list Dep) :=
  match _download_pom_file config w group_id artifact_id "latest" with
  | (w1, Some pom_content) => (w1, _parse_dependencies_from_pom pom_content)
  | (w1, None) => (w1, None)
  end.

End Repository.

(** A POM in the Maven namespace, as the central repository serves them,
    with one dependency. *)
Definition namespaced_pom : Element :=
  mkElement (maven_tag "project") None
    [mkElement (maven_tag "artifactId") (Some "app") [];
     mkElement (maven_tag "dependencies") None
       [mkElement (maven_tag "dependency") None
          [mkElement (maven_tag "groupId") (Some "junit") [];
           mkElement (maven_tag "artifactId") (Some "junit") [];
           mkElement (maven_tag "version") (Some "4.13.2") []]]].

(** A repository metadata document that lists three versions. *)
Definition listed_versions : Element :=
  mkElement "metadata" None
    [mkElement "versioning" None
       [mkElement "versions" None
          [mkElement "version" (Some "1.9") [];
           mkElement "version" (Some "1.10") [];
           mkElement "version" (Some "2.0-SNAPSHOT") []]]].

(** A parser that knows two documents: the metadata document above and the
    namespaced POM. *)
Definition example_fromstring (content : string) : option Element :=
  if String.eqb content "metadata" then Some listed_versions
  else if String.eqb content "pom" then Some namespaced_pom
  else None.

(** A repository that serves the metadata of [com.example:app] and the POM
    of its version 1.9, and nothing else. *)
Definition example_urlopen (w : unit) (url : string) : unit * option string :=
  if String.eqb url
       "https://repo1.maven.org/maven2/com/example/app/maven-metadata.xml"
  then (w, Some "metadata")
  else if String.eqb url
            "https://repo1.maven.org/maven2/com/example/app/1.9/app-1.9.pom"
  then (w, Some "pom")
  else (w, None).

(** The configuration of a remote run for [com.example:app]. *)
Definition example_run_config : RunConfig :=
  mkRunConfig (mkConfig "com.example:app" 3 None Remote) true false
    (RepositoryUrl (Some "https://repo1.maven.org/maven2")).

(** * Properties *)

(** ** Strings and dicts *)

Lemma append_cons (x : ascii) (a b : string) :
  String x a +:+ b = String x (a +:+ b).
Proof. reflexivity. Qed.

Lemma append_assoc (a b c : string) : (a +:+ b) +:+ c = a +:+ (b +:+ c).
Proof.
  induction a as [|x a IH]; [reflexivity|].
  now rewrite !append_cons, IH.
Qed.

Lemma append_empty_r (a : string) : a +:+ "" = a.
Proof.
  induction a as [|x a IH]; [reflexivity|].
  now rewrite append_cons, IH.
Qed.

Lemma append_loop_joined {A} (f : A -> string) (l : list A) (acc : string) :
  fold_left (fun acc x => acc +:+ f x) l acc = acc +:+ PyStr.joined (map f l).
Proof.
  revert acc; induction l as [|x l IH]; intros acc; simpl.
  - now rewrite append_empty_r.
  - rewrite IH. apply append_assoc.
Qed.

Lemma joined_app (l1 l2 : list string) :
  PyStr.joined (l1 ++ l2) = PyStr.joined l1 +:+ PyStr.joined l2.
Proof.
  induction l1 as [|x l1 IH]; simpl; [reflexivity|].
  rewrite IH. symmetry. apply append_assoc.
Qed.

Module DictFacts.

Lemma mem_keys (k : string) (d : Dict.t) :
  Dict.mem k d = true <-> k ∈ Dict.keys d.
Proof.
  induction d as [|[k' v] d IH]; simpl.
  - split; [discriminate | intros H; inversion H].
  - destruct (String.eqb_spec k' k) as [->|Hne].
    + split; [intros _; left | reflexivity].
    + rewrite IH. split; [now right|].
      intros H. inversion H; subst; [congruence | assumption].
Qed.

Lemma get_keys (k : string) (d : Dict.t) :
  is_Some (Dict.get k d) <-> k ∈ Dict.keys d.
Proof.
  induction d as [|[k' v] d IH]; simpl.
  - split; [intros [x Hx]; discriminate | intros H; inversion H].
  - destruct (String.eqb_spec k' k) as [->|Hne].
    + split; [intros _; left | eauto].
    + rewrite IH. split; [now right|].
      intros H. inversion H; subst; [congruence | assumption].
Qed.

Lemma get_set_eq (k : string) (v : list Dep) (d : Dict.t) :
  Dict.get k (Dict.set k v d) = Some v.
Proof.
  induction d as [|[k' v'] d IH]; simpl.
  - now rewrite String.eqb_refl.
  - destruct (String.eqb_spec k' k) as [->|Hne]; simpl.
    + now rewrite String.eqb_refl.
    + destruct (String.eqb_spec k' k); [congruence | assumption].
Qed.

Lemma get_set_ne (k k' : string) (v : list Dep) (d : Dict.t) :
  k <> k' -> Dict.get k' (Dict.set k v d) = Dict.get k' d.
Proof.
  intros Hne. induction d as [|[k0 v0] d IH]; simpl.
  - destruct (String.eqb_spec k k'); [congruence | reflexivity].
  - destruct (String.eqb_spec k0 k) as [->|Hne0]; simpl.
    + destruct (String.eqb_spec k k'); [congruence | reflexivity].
    + now rewrite IH.
Qed.

(** An assignment to a new key appends it; to a present key it keeps the
    keys as they are. *)
Lemma keys_set_new (k : string) (v : list Dep) (d : Dict.t) :
  k ∉ Dict.keys d -> Dict.set k v d = d ++ [(k, v)].
Proof.
  induction d as [|[k' v'] d IH]; simpl; intros Hk; [reflexivity|].
  destruct (String.eqb_spec k' k) as [->|Hne].
  - exfalso; apply Hk; left.
  - rewrite IH; [reflexivity|]. intros H; apply Hk; now right.
Qed.

Lemma keys_set_old (k : string) (v : list Dep) (d : Dict.t) :
  k ∈ Dict.keys d -> Dict.keys (Dict.set k v d) = Dict.keys d.
Proof.
  induction d as [|[k' v'] d IH]; simpl; intros Hk; [inversion Hk|].
  destruct (String.eqb_spec k' k) as [->|Hne]; simpl; [reflexivity|].
  rewrite IH; [reflexivity|]. inversion Hk; subst; [congruence | assumption].
Qed.

Lemma keys_app (d d' : Dict.t) :
  Dict.keys (d ++ d') = Dict.keys d ++ Dict.keys d'.
Proof. apply map_app. Qed.

End DictFacts.

(** ** The filter *)

Lemma filter_loop (p : Dep -> bool) (dependencies filtered : list Dep) :
  fold_left (fun filtered dep => if p dep then filtered ++ [dep] else filtered)
            dependencies filtered
  = filtered ++ List.filter p dependencies.
Proof.
  revert filtered; induction dependencies as [|dep l IH]; intros filtered; simpl.
  - now rewrite app_nil_r.
  - rewrite IH. destruct (p dep); [|reflexivity].
    now rewrite <- app_assoc.
Qed.

Lemma filter_filter_same {A} (p : A -> bool) (l : list A) :
  List.filter p (List.filter p l) = List.filter p l.
Proof.
  induction l as [|x l IH]; simpl; [reflexivity|].
  destruct (p x) eqn:Hp; simpl; [rewrite Hp, IH|]; auto.
Qed.

Lemma filter_sublist {A} (p : A -> bool) (l : list A) :
  sublist (List.filter p l) l.
Proof.
  induction l as [|x l IH]; simpl; [constructor|].
  destruct (p x); now constructor.
Qed.

Lemma apply_filter_selects {L : StrLower} (config : Config) (substring : string)
    (dependencies : list Dep) :
  filter_substring config = Some substring -> substring <> "" ->
  _apply_filter config dependencies
  = List.filter (matches_substring substring) dependencies.
Proof.
  intros Hcfg Hne. unfold _apply_filter. rewrite Hcfg.
  destruct substring as [|c s]; [congruence|].
  now rewrite filter_loop.
Qed.

Lemma apply_filter_nil {L : StrLower} (config : Config) : _apply_filter config [] = [].
Proof.
  unfold _apply_filter. destruct (filter_substring config) as [[|c s]|]; reflexivity.
Qed.

(** C8. The filter returns the list unchanged when the substring is absent
    or empty. For any other substring it returns exactly the records for
    which the lower-cased text of group, [:], artifact, [:], version
    contains the lower-cased substring, as a sublist in the original order;
    two substrings with the same lower-cased text select the same records;
    and filtering twice with the same substring gives the same list as
    filtering once. *)
Theorem apply_filter_identity_selection_idempotent {L : StrLower}
    (config : Config) (dependencies : list Dep) :
  (filter_substring config = None \/ filter_substring config = Some "" ->
   _apply_filter config dependencies = dependencies) /\
  (forall substring,
     filter_substring config = Some substring -> substring <> "" ->
     _apply_filter config dependencies
     = List.filter
         (fun dep =>
            PyStr.contains
              (str_lower substring)
              (str_lower (groupId dep +:+ ":" +:+ artifactId dep
                          +:+ ":" +:+ version dep)))
         dependencies) /\
  (forall config' substring substring',
     filter_substring config = Some substring -> substring <> "" ->
     filter_substring config' = Some substring' -> substring' <> "" ->
     str_lower substring = str_lower substring' ->
     _apply_filter config' dependencies = _apply_filter config dependencies) /\
  sublist (_apply_filter config dependencies) dependencies /\
  _apply_filter config (_apply_filter config dependencies)
  = _apply_filter config dependencies.
Proof.
  split; [|split; [|split; [|split]]].
  - intros [H|H]; unfold _apply_filter; now rewrite H.
  - intros substring. apply apply_filter_selects.
  - intros config' substring substring' Hcfg Hne Hcfg' Hne' Hlower.
    rewrite (apply_filter_selects config substring),
            (apply_filter_selects config' substring') by assumption.
    unfold matches_substring. now rewrite Hlower.
  - destruct (filter_substring config) as [[|c s]|] eqn:Hcfg;
      try (unfold _apply_filter; rewrite Hcfg; reflexivity).
    rewrite (apply_filter_selects config (String c s)) by (assumption || discriminate).
    apply filter_sublist.
  - destruct (filter_substring config) as [[|c s]|] eqn:Hcfg;
      try (unfold _apply_filter; rewrite Hcfg; reflexivity).
    rewrite !(apply_filter_selects config (String c s)) by (assumption || discriminate).
    apply filter_filter_same.
Qed.

Lemma apply_filter_scenario_D :
  _apply_filter upper_filter_config
    [mkDep "b" "lib" "1.0"; mkDep "c" "Test" "1.0";
     mkDep "org.junit" "api" "5.0-test"; mkDep "x" "y" "tes:t"]
  = [mkDep "c" "Test" "1.0"; mkDep "org.junit" "api" "5.0-test"].
Proof.
  rewrite (proj1 (proj2 (apply_filter_identity_selection_idempotent
                           upper_filter_config
                           [mkDep "b" "lib" "1.0"; mkDep "c" "Test" "1.0";
                            mkDep "org.junit" "api" "5.0-test";
                            mkDep "x" "y" "tes:t"]))
             "TEST" eq_refl ltac:(discriminate)).
  reflexivity.
Defined.

(** Scenario D: only the record that contains [test] is kept. *)
Example scenario_D_filter :
  _apply_filter filter_config [mkDep "b" "lib" "1.0"; mkDep "c" "test" "1.0"]
  = [mkDep "c" "test" "1.0"].
Proof. reflexivity. Qed.

(** Beyond ASCII: under a lowering that turns the Cyrillic capitals into
    the small letters, as the one of Python does, a filter in capitals
    keeps the record written in small letters. *)
Example filter_beyond_ascii {L : StrLower} :
  str_lower "ТЕСТ" = "тест" ->
  str_lower "b:тест:1.0" = "b:тест:1.0" ->
  str_lower "c:lib:1.0" = "c:lib:1.0" ->
  _apply_filter (mkConfig "a:a" 3 (Some "ТЕСТ") Remote)
    [mkDep "b" "тест" "1.0"; mkDep "c" "lib" "1.0"]
  = [mkDep "b" "тест" "1.0"].
Proof.
  intros Hsubstring Hkept Hdropped.
  rewrite (apply_filter_selects (mkConfig "a:a" 3 (Some "ТЕСТ") Remote) "ТЕСТ"
             _ eq_refl ltac:(discriminate)).
  unfold matches_substring. cbn [List.filter].
  change (dep_str (mkDep "b" "тест" "1.0")) with "b:тест:1.0".
  change (dep_str (mkDep "c" "lib" "1.0")) with "c:lib:1.0".
  rewrite Hsubstring, Hkept, Hdropped. reflexivity.
Qed.

(** ** The diagram serializer *)

Lemma edge_loops_joined (d : Dict.t) (acc : string) :
  fold_left
    (fun d2_content '(package, dependencies) =>
       fold_left
         (fun d2_content dep => d2_content +:+ edge_statement package (dep_key dep))
         dependencies d2_content)
    d acc
  = acc +:+ PyStr.joined
              (map (fun '(package, key) => edge_statement package key)
                   (adjacency_pairs d)).
Proof.
  revert acc; induction d as [|[package dependencies] d IH]; intros acc; simpl.
  - now rewrite append_empty_r.
  - rewrite IH, append_loop_joined, append_assoc.
    f_equal. rewrite map_app, joined_app, map_map. reflexivity.
Qed.

Lemma text_lines_line (line rest : string) :
  line_feed_free line = true ->
  text_lines (line +:+ LF +:+ rest) = line :: text_lines rest.
Proof.
  induction line as [|c line IH]; intros Hfree; [reflexivity|].
  simpl in Hfree. apply andb_true_iff in Hfree as [Hc Hfree].
  rewrite append_cons. simpl.
  destruct (Ascii.eqb c (Ascii.ascii_of_nat 10)); [discriminate|].
  now rewrite (IH Hfree).
Qed.

Lemma text_lines_terminated (lines : list string) (rest : string) :
  Forall (fun line => line_feed_free line = true) lines ->
  text_lines (PyStr.joined (map (fun line => line +:+ LF) lines) +:+ rest)
  = lines ++ text_lines rest.
Proof.
  induction lines as [|line lines IH]; intros Hfree; [reflexivity|].
  apply Forall_cons in Hfree as [Hline Hfree]. simpl.
  rewrite !append_assoc, text_lines_line by assumption.
  now rewrite IH.
Qed.

Lemma line_feed_free_app (a b : string) :
  line_feed_free (a +:+ b) = line_feed_free a && line_feed_free b.
Proof.
  induction a as [|c a IH]; [reflexivity|].
  rewrite append_cons. simpl. now rewrite IH, andb_assoc.
Qed.

Lemma adjacency_pairs_concat (d : Dict.t) :
  adjacency_pairs d
  = concat (map (fun entry =>
                   map (fun dep =>
                          (entry.1, groupId dep +:+ ":" +:+ artifactId dep))
                       entry.2)
                d).
Proof.
  unfold adjacency_pairs.
  induction d as [|[package dependencies] d IH]; simpl; [reflexivity|].
  now rewrite IH.
Qed.

Lemma adjacency_pairs_length (d : Dict.t) :
  length (adjacency_pairs d) = sum_list (map (fun entry => length entry.2) d).
Proof.
  unfold adjacency_pairs.
  induction d as [|[package dependencies] d IH]; simpl; [reflexivity|].
  now rewrite length_app, length_map, IH.
Qed.

Lemma adjacency_pairs_parent (d : Dict.t) (pair : string * string) :
  pair ∈ adjacency_pairs d -> pair.1 ∈ Dict.keys d.
Proof.
  unfold adjacency_pairs, Dict.keys.
  induction d as [|[package dependencies] d IH]; simpl;
    intros Hpair; [inversion Hpair|].
  apply elem_of_app in Hpair as [Hpair|Hpair].
  - apply list_elem_of_fmap in Hpair as [dep [-> _]]. left.
  - right. now apply IH.
Qed.

(** C9, as the specification states it, fails: the diagram of a graph with
    one key holds two lines for that key when the key contains a line
    feed. *)
Lemma key_with_line_feed_takes_two_lines :
  length line_feed_graph = 1%nat /\
  text_lines (generate_d2_diagram line_feed_graph)
  = ["# Граф зависимостей Maven"; ""; "direction: right"; "classes: {";
     "  style: {"; "    stroke: green"; "    fill: lightgreen"; "  }"; "}"; ""]
    ++ [DQ +:+ "a:"; "b" +:+ DQ].
Proof. split; vm_compute; reflexivity. Qed.

(** C9, amended. The diagram is the header, then for every key of the graph,
    in the graph's iteration order, the key in double quotes and a line
    feed, then for every stored adjacency pair, in the order of the graph
    and of its lists and with repeated targets repeated, the parent in
    double quotes, an arrow, the coordinate of the child in double quotes
    and a line feed. When no key and no coordinate of a child contains a
    line feed, the text consists of the ten lines of the header, one line
    per key and one line per stored pair, as many as the lengths of the
    stored lists add up to. *)
Theorem generate_d2_diagram_lines (dependency_graph : Dict.t) :
  generate_d2_diagram dependency_graph
  = d2_header
    +:+ PyStr.joined (map (fun package => DQ +:+ package +:+ DQ +:+ LF)
                          (Dict.keys dependency_graph))
    +:+ PyStr.joined (map (fun '(package, key) =>
                             DQ +:+ package +:+ DQ +:+ " -> "
                             +:+ DQ +:+ key +:+ DQ +:+ LF)
                          (adjacency_pairs dependency_graph)) /\
  adjacency_pairs dependency_graph
  = concat (map (fun entry =>
                   map (fun dep =>
                          (entry.1, groupId dep +:+ ":" +:+ artifactId dep))
                       entry.2)
                dependency_graph) /\
  length (adjacency_pairs dependency_graph)
  = sum_list (map (fun entry => length entry.2) dependency_graph) /\
  (Forall (fun package => line_feed_free package = true)
          (Dict.keys dependency_graph) ->
   Forall (fun pair => line_feed_free pair.2 = true)
          (adjacency_pairs dependency_graph) ->
   text_lines (generate_d2_diagram dependency_graph)
   = ["# Граф зависимостей Maven"; ""; "direction: right"; "classes: {";
      "  style: {"; "    stroke: green"; "    fill: lightgreen"; "  }"; "}"; ""]
     ++ map (fun package => DQ +:+ package +:+ DQ) (Dict.keys dependency_graph)
     ++ map (fun '(package, key) =>
               DQ +:+ package +:+ DQ +:+ " -> " +:+ DQ +:+ key +:+ DQ)
            (adjacency_pairs dependency_graph) /\
   length (text_lines (generate_d2_diagram dependency_graph))
   = (10 + length dependency_graph
      + sum_list (map (fun entry => length entry.2) dependency_graph))%nat).
Proof.
  assert (Htext : generate_d2_diagram dependency_graph
                  = d2_header
                    +:+ PyStr.joined (map (fun package => DQ +:+ package +:+ DQ +:+ LF)
                                          (Dict.keys dependency_graph))
                    +:+ PyStr.joined (map (fun '(package, key) =>
                                             DQ +:+ package +:+ DQ +:+ " -> "
                                             +:+ DQ +:+ key +:+ DQ +:+ LF)
                                          (adjacency_pairs dependency_graph))).
  { unfold generate_d2_diagram.
    rewrite edge_loops_joined, append_loop_joined. apply append_assoc. }
  pose proof (adjacency_pairs_length dependency_graph) as Hcount.
  pose proof (adjacency_pairs_parent dependency_graph) as Hpairs_keys.
  split; [exact Htext|].
  split; [apply adjacency_pairs_concat|]. split; [exact Hcount|].
  intros Hkeys Hpairs.
  assert (Hlines :
      text_lines (generate_d2_diagram dependency_graph)
      = ["# Граф зависимостей Maven"; ""; "direction: right"; "classes: {";
         "  style: {"; "    stroke: green"; "    fill: lightgreen"; "  }"; "}"; ""]
        ++ map (fun package => DQ +:+ package +:+ DQ) (Dict.keys dependency_graph)
        ++ map (fun '(package, key) =>
                  DQ +:+ package +:+ DQ +:+ " -> " +:+ DQ +:+ key +:+ DQ)
               (adjacency_pairs dependency_graph)).
    { rewrite Htext.
      change d2_header
        with (PyStr.joined
                (map (fun line => line +:+ LF)
                   ["# Граф зависимостей Maven"; ""; "direction: right";
                    "classes: {"; "  style: {"; "    stroke: green";
                    "    fill: lightgreen"; "  }"; "}"; ""])).
      rewrite text_lines_terminated by (repeat constructor).
      f_equal.
      replace (map (fun package => DQ +:+ package +:+ DQ +:+ LF)
                   (Dict.keys dependency_graph))
        with (map (fun line => line +:+ LF)
                  (map (fun package => DQ +:+ package +:+ DQ)
                       (Dict.keys dependency_graph))).
      2:{ rewrite map_map. apply map_ext. intros package.
          now rewrite !append_assoc. }
      rewrite text_lines_terminated.
      2:{ apply Forall_fmap. eapply Forall_impl; [exact Hkeys|].
          intros package Hfree. simpl.
          now rewrite !line_feed_free_app, Hfree. }
      f_equal.
      replace (map (fun '(package, key) =>
                      DQ +:+ package +:+ DQ +:+ " -> " +:+ DQ +:+ key +:+ DQ +:+ LF)
                   (adjacency_pairs dependency_graph))
        with (map (fun line => line +:+ LF)
                  (map (fun '(package, key) =>
                          DQ +:+ package +:+ DQ +:+ " -> " +:+ DQ +:+ key +:+ DQ)
                       (adjacency_pairs dependency_graph))).
      2:{ rewrite map_map. apply map_ext. intros [package key].
          now rewrite !append_assoc. }
      rewrite <- (append_empty_r (PyStr.joined _)), text_lines_terminated.
      - apply app_nil_r.
      - apply Forall_fmap. apply Forall_forall. intros [package key] Hpair. simpl.
        rewrite Forall_forall in Hkeys. rewrite Forall_forall in Hpairs.
        rewrite !line_feed_free_app.
        pose proof (Hpairs _ Hpair) as Hkey. simpl in Hkey.
        rewrite (Hkeys package (Hpairs_keys _ Hpair)), Hkey.
        reflexivity. }
    split; [exact Hlines|].
    rewrite Hlines, !length_app, !length_map, Hcount. unfold Dict.keys.
    rewrite length_map. simpl. lia.
Qed.

Lemma generate_d2_diagram_lines_diamond :
  text_lines (generate_d2_diagram diamond_graph)
  = ["# Граф зависимостей Maven"; ""; "direction: right"; "classes: {";
     "  style: {"; "    stroke: green"; "    fill: lightgreen"; "  }"; "}"; ""]
    ++ [DQ +:+ "a:a" +:+ DQ; DQ +:+ "b:b" +:+ DQ;
        DQ +:+ "c:c" +:+ DQ; DQ +:+ "d:d" +:+ DQ]
    ++ [DQ +:+ "a:a" +:+ DQ +:+ " -> " +:+ DQ +:+ "b:b" +:+ DQ;
        DQ +:+ "a:a" +:+ DQ +:+ " -> " +:+ DQ +:+ "c:c" +:+ DQ;
        DQ +:+ "b:b" +:+ DQ +:+ " -> " +:+ DQ +:+ "d:d" +:+ DQ;
        DQ +:+ "c:c" +:+ DQ +:+ " -> " +:+ DQ +:+ "d:d" +:+ DQ].
Proof.
  apply (proj1 (proj2 (proj2 (proj2 (generate_d2_diagram_lines diamond_graph)))
                  ltac:(repeat constructor) ltac:(repeat constructor))).
Defined.

(** ** The tree printer *)

Section RendererFacts.

Variable config : Config.
Variable dependency_graph : Dict.t.

Local Abbreviation children := (print_tree_children config).
Local Abbreviation node := (_print_tree_node config dependency_graph).

(** The loop over the children succeeds as soon as the recursive call
    does on the set it is handed. *)
Lemma print_tree_children_total
    (rec : string -> Z -> gset string -> option (list string * gset string))
    (level : Z) (visited : gset string) (n i : Z) (remaining : list Dep) :
  (forall package, is_Some (rec package (level + 1) visited)) ->
  is_Some (children rec level visited n i remaining).
Proof.
  intros Hrec. revert i.
  induction remaining as [|dep remaining IH]; intros i; simpl; [eauto|].
  destruct (IH (i + 1)) as [lines' ->].
  destruct (level + 1 <? max_depth config); [|eauto].
  destruct (Hrec (dep_key dep)) as [[lines s] ->]. eauto.
Qed.

(** The loop depends on the recursive call only through its results. *)
Lemma print_tree_children_mono
    (rec rec' : string -> Z -> gset string -> option (list string * gset string))
    (level : Z) (visited : gset string) (n i : Z) (remaining : list Dep)
    (lines : list string) :
  (forall package l s r, rec package l s = Some r -> rec' package l s = Some r) ->
  children rec level visited n i remaining = Some lines ->
  children rec' level visited n i remaining = Some lines.
Proof.
  intros Hrec. revert i lines.
  induction remaining as [|dep remaining IH]; intros i lines; simpl; [auto|].
  destruct (level + 1 <? max_depth config).
  - destruct (rec (dep_key dep) (level + 1) visited) as [[l1 s1]|] eqn:H1;
      [|discriminate].
    rewrite (Hrec _ _ _ _ H1).
    destruct (children rec level visited n (i + 1) remaining) as [l2|] eqn:H2;
      [|discriminate].
    now rewrite (IH _ _ H2).
  - destruct (children rec level visited n (i + 1) remaining) as [l2|] eqn:H2;
      [|discriminate].
    now rewrite (IH _ _ H2).
Qed.

(** More fuel does not change a result. *)
Lemma print_tree_node_fuel_mono (fuel fuel' : nat) (package : string)
    (level : Z) (visited : gset string) (r : list string * gset string) :
  (fuel <= fuel')%nat ->
  node fuel package level visited = Some r ->
  node fuel' package level visited = Some r.
Proof.
  revert fuel' package level visited r.
  induction fuel as [|fuel IH]; intros fuel' package level visited r Hle;
    [discriminate|].
  destruct fuel' as [|fuel']; [lia|]. simpl.
  destruct (decide (package ∈ visited)); [auto|].
  destruct (Dict.get package dependency_graph) as [dependencies|]; [|auto].
  destruct (children (node fuel) level ({[package]} ∪ visited)
              (Z.of_nat (length dependencies)) 0 dependencies) as [lines|] eqn:Hc;
    [|discriminate].
  rewrite (print_tree_children_mono (node fuel) (node fuel') _ _ _ _ _ lines);
    [auto| |assumption].
  intros p l s r'. apply IH. lia.
Qed.

(** The set object comes back with the content it had on entry. *)
Lemma print_tree_node_restores (fuel : nat) (package : string) (level : Z)
    (visited visited' : gset string) (lines : list string) :
  node fuel package level visited = Some (lines, visited') -> visited' = visited.
Proof.
  destruct fuel as [|fuel]; [discriminate|]. simpl.
  destruct (decide (package ∈ visited)) as [Hin|Hnot]; [congruence|].
  destruct (match Dict.get package dependency_graph with
            | Some dependencies => _
            | None => _
            end); [|discriminate].
  intros [= _ <-]. set_solver.
Qed.

(** Putting a key of the graph on the path leaves fewer keys off it. *)
Lemma keys_off_path_add (package : string) (visited : gset string) :
  package ∈ Dict.keys dependency_graph -> package ∉ visited ->
  (keys_off_path dependency_graph ({[package]} ∪ visited)
   < keys_off_path dependency_graph visited)%nat.
Proof.
  unfold keys_off_path. intros Hin Hnot.
  induction (Dict.keys dependency_graph) as [|k ks IH]; [inversion Hin|].
  assert (Hle : forall l : list string,
             (length (filter (fun k => k ∉ {[package]} ∪ visited) l)
              <= length (filter (fun k => k ∉ visited) l))%nat).
  { induction l as [|x l IHl]; [reflexivity|].
    rewrite !filter_cons.
    destruct (decide (x ∉ {[package]} ∪ visited)) as [H1|H1];
      destruct (decide (x ∉ visited)) as [H2|H2]; simpl; try lia.
    exfalso. apply H2. set_solver. }
  rewrite !filter_cons.
  destruct (decide (k = package)) as [->|Hne].
  - destruct (decide (package ∉ {[package]} ∪ visited)) as [H1|H1];
      [exfalso; set_solver|].
    destruct (decide (package ∉ visited)) as [H2|H2]; [|contradiction].
    simpl. specialize (Hle ks). lia.
  - assert (Hks : package ∈ ks) by (inversion Hin; subst; [congruence|assumption]).
    specialize (IH Hks).
    destruct (decide (k ∉ {[package]} ∪ visited)) as [H1|H1];
      destruct (decide (k ∉ visited)) as [H2|H2]; simpl; try lia.
    exfalso. apply H2. set_solver.
Qed.

(** A call returns once the fuel exceeds the number of keys of the graph
    that are not on its path, whatever [max_depth] is. *)
Lemma print_tree_node_returns (n : nat) (package : string) (level : Z)
    (visited : gset string) :
  (keys_off_path dependency_graph visited <= n)%nat ->
  exists lines, node (S n) package level visited = Some (lines, visited).
Proof.
  revert package level visited.
  induction n as [|n IH]; intros package level visited Hn.
  - simpl. destruct (decide (package ∈ visited)) as [Hin|Hnot]; [eauto|].
    destruct (Dict.get package dependency_graph) as [dependencies|] eqn:Hget.
    + assert (Hk : package ∈ Dict.keys dependency_graph)
        by (apply DictFacts.get_keys; eauto).
      pose proof (keys_off_path_add package visited Hk Hnot). lia.
    + eexists. f_equal. f_equal. set_solver.
  - change (node (S (S n)) package level visited)
      with (if decide (package ∈ visited) then
              Some ([PyStr.repeat "  " level +:+ "└── " +:+ package
                     +:+ " (циклическая зависимость)"], visited)
            else
              match
                match Dict.get package dependency_graph with
                | Some dependencies =>
                    children (node (S n)) level ({[package]} ∪ visited)
                      (Z.of_nat (length dependencies)) 0 dependencies
                | None => Some []
                end
              with
              | Some lines =>
                  Some ((PyStr.repeat "  " level
                         +:+ (if 0 <? level then "└── " else "") +:+ package)
                          :: lines, ({[package]} ∪ visited) ∖ {[package]})
              | None => None
              end).
    destruct (decide (package ∈ visited)) as [Hin|Hnot]; [eauto|].
    assert (Hset : ({[package]} ∪ visited) ∖ {[package]} = visited) by set_solver.
    rewrite Hset.
    destruct (Dict.get package dependency_graph) as [dependencies|] eqn:Hget;
      [|eauto].
    assert (Hk : package ∈ Dict.keys dependency_graph)
      by (apply DictFacts.get_keys; eauto).
    pose proof (keys_off_path_add package visited Hk Hnot) as Hlt.
    destruct (print_tree_children_total (node (S n)) level
                ({[package]} ∪ visited) (Z.of_nat (length dependencies)) 0
                dependencies) as [lines ->]; [|eauto].
    intros p. destruct (IH p (level + 1) ({[package]} ∪ visited)) as [l Hl];
      [lia | rewrite Hl; eauto].
Qed.

(** A run above the bound returns the lines of [tree_lines] and the set it
    was given. *)
Lemma tree_lines_returns (fuel : nat) (package : string) (level : Z)
    (visited : gset string) :
  (keys_off_path dependency_graph visited < fuel)%nat ->
  node fuel package level visited
  = Some (tree_lines config dependency_graph package level visited, visited).
Proof.
  intros Hfuel.
  destruct (print_tree_node_returns (keys_off_path dependency_graph visited)
              package level visited) as [lines Hlines]; [lia|].
  unfold tree_lines. rewrite Hlines.
  apply (print_tree_node_fuel_mono (S (keys_off_path dependency_graph visited)));
    [lia | assumption].
Qed.

(** Every run that returns has printed the lines of [tree_lines]. *)
Lemma tree_lines_of_run (fuel : nat) (package : string) (level : Z)
    (visited visited' : gset string) (lines : list string) :
  node fuel package level visited = Some (lines, visited') ->
  tree_lines config dependency_graph package level visited = lines.
Proof.
  intros Hrun.
  pose proof (tree_lines_returns (S (fuel + keys_off_path dependency_graph visited))
                package level visited ltac:(lia)) as Hbig.
  apply (print_tree_node_fuel_mono fuel
           (S (fuel + keys_off_path dependency_graph visited))) in Hrun; [|lia].
  congruence.
Qed.

End RendererFacts.

(** Below the depth bound, the loop over the children makes one recursive
    call per stored record, in the stored order, each with the same set. *)
Lemma print_tree_children_expanded (config : Config)
    (node : string -> Z -> gset string -> option (list string * gset string))
    (level : Z) (visited : gset string) (n i : Z) (remaining : list Dep) :
  level + 1 < max_depth config ->
  print_tree_children config node level visited n i remaining
  = (blocks ← mapM (fun dep => fst <$> node (dep_key dep) (level + 1) visited)
                   remaining;
     Some (concat blocks)).
Proof.
  intros Hlevel. revert i.
  induction remaining as [|dep remaining IH]; intros i; [reflexivity|].
  cbn [print_tree_children mapM]. rewrite IH.
  destruct (level + 1 <? max_depth config) eqn:Hd; [|lia].
  destruct (node (dep_key dep) (level + 1) visited) as [[lines s]|]; [|reflexivity].
  simpl. destruct (mapM _ remaining); reflexivity.
Qed.

(** At the depth bound the loop over the children makes no recursive call:
    it prints one line per stored record. *)
Lemma print_tree_children_bounded (config : Config)
    (node : string -> Z -> gset string -> option (list string * gset string))
    (level : Z) (visited : gset string) (n i : Z) (remaining : list Dep) :
  max_depth config <= level + 1 ->
  print_tree_children config node level visited n i remaining
  = Some (imap (fun j dep =>
                  PyStr.repeat "  " (level + 1)
                  +:+ (if i + Z.of_nat j =? n - 1 then "└── " else "├── ")
                  +:+ dep_key dep +:+ " (глубина ограничена)")
               remaining).
Proof.
  intros Hlevel. revert i.
  induction remaining as [|dep remaining IH]; intros i; [reflexivity|].
  cbn [print_tree_children imap]. rewrite IH.
  destruct (level + 1 <? max_depth config) eqn:Hd; [lia|].
  simpl. rewrite Z.add_0_r. do 2 f_equal.
  apply imap_ext. intros j x _. simpl.
  now replace (i + 1 + Z.of_nat j) with (i + Z.of_nat (S j)) by lia.
Qed.

Lemma mapM_total {A B : Type} (f : A -> option B) (g : A -> B) (l : list A) :
  (forall x, f x = Some (g x)) -> mapM f l = Some (map g l).
Proof.
  intros Hf. induction l as [|x l IH]; [reflexivity|].
  cbn [mapM map]. rewrite Hf, IH. reflexivity.
Qed.

(** C6, as the specification states it, fails: in the tree of the
    two-package cycle built with [max_depth] 2, the root [x:x] is about to
    be printed as the child of [y:y] while it is on the path, and its line
    is the depth-limited one, not the cyclic one. *)
Lemma path_repeated_child_at_depth_bound :
  (exists st,
     build_dependency_graph cycle_source (mkConfig "x:x" 2 None Remote) 3 tt
     = Some st /\
     dependency_graph st = cycle_graph) /\
  print_ascii_tree (mkConfig "x:x" 2 None Remote) cycle_graph 3
  = Some [LF +:+ "Дерево зависимостей для: x:x";
          "==================================================";
          "x:x";
          "  └── y:y";
          "    └── x:x (глубина ограничена)"].
Proof.
  split; [eexists; split|]; vm_compute; reflexivity.
Qed.

(** C6, amended. On every graph, cyclic or not, and for every [max_depth],
    a call of the tree printer returns: the number of graph keys that are
    not yet on the path bounds the nesting of the calls, and any larger
    bound gives the same lines; so [print_ascii_tree] returns too. A call
    on a coordinate that is already in the path set prints the one
    cyclic-dependency line and makes no further call (one unit of fuel is
    enough). A call on a package off the path prints the package's line and
    then, when its children are below the depth bound, for each stored
    record in order either the cyclic-dependency line, if the child is the
    package itself or on the path, or the lines of the child with the
    package added to the path; when its children are at the depth bound,
    one depth-limited line per stored record, with no look at the path. *)
Theorem print_tree_node_terminates_and_marks_cycles
    (config : Config) (dependency_graph : Dict.t)
    (package : string) (level : Z) (visited : gset string) :
  (forall fuel, (keys_off_path dependency_graph visited < fuel)%nat ->
     _print_tree_node config dependency_graph fuel package level visited
     = Some (tree_lines config dependency_graph package level visited, visited)) /\
  (exists output,
     forall fuel, (length dependency_graph < fuel)%nat ->
       print_ascii_tree config dependency_graph fuel = Some output) /\
  (package ∈ visited ->
   _print_tree_node config dependency_graph 1 package level visited
   = Some ([PyStr.repeat "  " level +:+ "└── " +:+ package
            +:+ " (циклическая зависимость)"], visited) /\
   tree_lines config dependency_graph package level visited
   = [PyStr.repeat "  " level +:+ "└── " +:+ package
      +:+ " (циклическая зависимость)"]) /\
  (package ∉ visited -> Dict.get package dependency_graph = None ->
   tree_lines config dependency_graph package level visited
   = [PyStr.repeat "  " level +:+ (if 0 <? level then "└── " else "")
      +:+ package]) /\
  (forall dependencies,
     package ∉ visited ->
     Dict.get package dependency_graph = Some dependencies ->
     (level + 1 < max_depth config ->
      tree_lines config dependency_graph package level visited
      = (PyStr.repeat "  " level +:+ (if 0 <? level then "└── " else "")
         +:+ package)
        :: concat
             (map (fun dep =>
                     let dep_key := groupId dep +:+ ":" +:+ artifactId dep in
                     if decide (dep_key ∈ {[package]} ∪ visited)
                     then [PyStr.repeat "  " (level + 1) +:+ "└── " +:+ dep_key
                           +:+ " (циклическая зависимость)"]
                     else tree_lines config dependency_graph dep_key
                            (level + 1) ({[package]} ∪ visited))
                  dependencies)) /\
     (max_depth config <= level + 1 ->
      tree_lines config dependency_graph package level visited
      = (PyStr.repeat "  " level +:+ (if 0 <? level then "└── " else "")
         +:+ package)
        :: imap (fun j dep =>
                   let dep_key := groupId dep +:+ ":" +:+ artifactId dep in
                   PyStr.repeat "  " (level + 1)
                   +:+ (if Z.of_nat j =? Z.of_nat (length dependencies) - 1
                        then "└── " else "├── ")
                   +:+ dep_key +:+ " (глубина ограничена)")
                dependencies)).
Proof.
  assert (Hmarker : forall p l v, p ∈ v ->
            _print_tree_node config dependency_graph 1 p l v
            = Some ([PyStr.repeat "  " l +:+ "└── " +:+ p
                     +:+ " (циклическая зависимость)"], v)).
  { intros p l v Hin. simpl.
    destruct (decide (p ∈ v)); [reflexivity | contradiction]. }
  split; [intros fuel Hfuel; now apply tree_lines_returns|].
  split; [|split; [|split]].
  - destruct dependency_graph as [|entry graph] eqn:Hgraph; [eexists; reflexivity|].
    rewrite <- Hgraph in *.
    eexists. intros fuel Hfuel. unfold print_ascii_tree.
    rewrite Hgraph, <- Hgraph, tree_lines_returns; [reflexivity|].
    unfold keys_off_path, Dict.keys.
    eapply Nat.le_lt_trans; [apply length_filter|].
    now rewrite length_map.
  - intros Hin. split; [now apply Hmarker|].
    apply (tree_lines_of_run config dependency_graph 1 _ _ _ visited).
    now apply Hmarker.
  - intros Hnot Hget.
    apply (tree_lines_of_run config dependency_graph 1 _ _ _ visited).
    cbn [_print_tree_node].
    destruct (decide (package ∈ visited)); [contradiction|].
    rewrite Hget. do 2 f_equal. set_solver.
  - intros dependencies Hnot Hget.
    assert (Hset : ({[package]} ∪ visited) ∖ {[package]} = visited) by set_solver.
    split; intros Hlevel.
    + assert (Hk : package ∈ Dict.keys dependency_graph)
        by (apply DictFacts.get_keys; eauto).
      pose proof (keys_off_path_add dependency_graph package visited Hk Hnot) as Hlt.
      apply (tree_lines_of_run config dependency_graph
               (S (keys_off_path dependency_graph visited)) _ _ _ visited).
      cbn [_print_tree_node].
      destruct (decide (package ∈ visited)); [contradiction|].
      rewrite Hget, print_tree_children_expanded by assumption.
      rewrite (mapM_total _
                 (fun dep => tree_lines config dependency_graph (dep_key dep)
                               (level + 1) ({[package]} ∪ visited))).
      2:{ intros dep. rewrite tree_lines_returns by lia. reflexivity. }
      cbn. rewrite Hset. do 3 f_equal. f_equal.
      apply List.map_ext. intros dep. cbn zeta.
      change (groupId dep +:+ ":" +:+ artifactId dep) with (dep_key dep).
      destruct (decide (dep_key dep ∈ {[package]} ∪ visited)) as [Hin|Hout];
        [|reflexivity].
      apply (tree_lines_of_run config dependency_graph 1 _ _ _
               ({[package]} ∪ visited)).
      now apply Hmarker.
    + apply (tree_lines_of_run config dependency_graph 1 _ _ _ visited).
      cbn [_print_tree_node].
      destruct (decide (package ∈ visited)); [contradiction|].
      rewrite Hget, print_tree_children_bounded by assumption.
      rewrite Hset. reflexivity.
Qed.

Lemma cyclic_marker_on_the_path :
  tree_lines cycle_config cycle_graph "y:y" 1 {["x:x"]}
  = ["  └── y:y"; "    └── x:x (циклическая зависимость)"] /\
  _print_tree_node cycle_config cycle_graph 1 "x:x" 2 {["x:x"; "y:y"]}
  = Some (["    └── x:x (циклическая зависимость)"], {["x:x"; "y:y"]}).
Proof.
  split.
  - assert (Hnot : "y:y" ∉ ({["x:x"]} : gset string))
      by (vm_compute; intros H; discriminate H).
    rewrite (proj1 (proj2 (proj2 (proj2 (proj2
               (print_tree_node_terminates_and_marks_cycles
                  cycle_config cycle_graph "y:y" 1 {["x:x"]}))))
               [mkDep "x" "x" "1.0"] Hnot eq_refl) eq_refl).
    vm_compute. reflexivity.
  - apply (proj1 (proj2 (proj2 (print_tree_node_terminates_and_marks_cycles
                                  cycle_config cycle_graph "x:x" 2
                                  {["x:x"; "y:y"]})))).
    vm_compute. reflexivity.
Defined.

(** Scenario B: the traversal of the two-package cycle returns the cyclic
    graph, and its tree ends at the repeated root. *)
Example scenario_B_cycle :
  (exists st, build_dependency_graph cycle_source cycle_config 2 tt = Some st /\
              dependency_graph st = cycle_graph) /\
  _print_tree_node cycle_config cycle_graph 3 "x:x" 0 ∅
  = Some (["x:x";
           "  └── y:y";
           "    └── x:x (циклическая зависимость)"], ∅).
Proof.
  split; [eexists; split|]; vm_compute; reflexivity.
Qed.

(** ** The graph builder *)

Section BuilderFacts.

Context {World : Type}.
Context {L : StrLower}.
Variable remote_source : World -> string -> string -> World * option (list Dep).
Variable config : Config.

Local Abbreviation iteration := (bfs_iteration remote_source config).
Local Abbreviation loop := (bfs_loop remote_source config).
Local Abbreviation root := (package_name config).

(** The enqueueing loop appends the new entries to the queue. *)
Lemma enqueue_dependencies_new_entries (dependencies : list Dep)
    (visited : gset string) (next_depth : Z) (q : list (string * Z)) :
  enqueue_dependencies dependencies visited next_depth q
  = q ++ new_entries dependencies visited next_depth.
Proof.
  unfold enqueue_dependencies, new_entries. revert q.
  induction dependencies as [|dep l IH]; intros q; simpl.
  - now rewrite app_nil_r.
  - rewrite IH, filter_cons.
    destruct (decide (dep_key dep ∈ visited)) as [Hin|Hnot];
      destruct (decide (dep_key dep ∉ visited)) as [H'|H']; try contradiction.
    + reflexivity.
    + now rewrite <- app_assoc.
Qed.

(** The entries that one iteration appends to the queue. *)
Lemma iteration_visited (package : string) (depth : Z) (st : BfsState World) :
  package ∈ visited_packages st -> iteration package depth st = st.
Proof.
  intros Hin. unfold bfs_iteration.
  destruct (decide (package ∈ visited_packages st)); [reflexivity | contradiction].
Qed.

Lemma iteration_fresh (package : string) (depth : Z) (st : BfsState World)
    (w : World) (call : SourceCall) (dependencies : list Dep) :
  package ∉ visited_packages st ->
  get_package_dependencies remote_source config (world st) package depth
  = (w, call, dependencies) ->
  iteration package depth st
  = let stored := _apply_filter config dependencies in
    let added :=
      if depth + 1 <? max_depth config
      then new_entries stored ({[package]} ∪ visited_packages st) (depth + 1)
      else [] in
    {| queue := queue st ++ added;
       dependency_graph := Dict.set package stored (dependency_graph st);
       visited_packages := {[package]} ∪ visited_packages st;
       world := w;
       expansions :=
         expansions st ++ [mkExpansion package depth call stored added] |}.
Proof.
  intros Hnot Hget. unfold bfs_iteration.
  destruct (decide (package ∈ visited_packages st)); [contradiction|].
  rewrite Hget. cbv zeta.
  destruct (depth + 1 <? max_depth config).
  - rewrite enqueue_dependencies_new_entries, drop_app_length. reflexivity.
  - rewrite drop_all, app_nil_r. reflexivity.
Qed.

(** What one iteration does to the queue: it appends entries, all at the
    next depth, and only when that depth is below [max_depth]. *)
Lemma iteration_queue (package : string) (depth : Z) (st : BfsState World) :
  exists added,
    queue (iteration package depth st) = queue st ++ added /\
    Forall (fun e => e.2 = depth + 1 /\ depth + 1 < max_depth config) added.
Proof.
  destruct (decide (package ∈ visited_packages st)) as [Hin|Hnot].
  - exists []. rewrite iteration_visited by assumption.
    now rewrite app_nil_r.
  - destruct (get_package_dependencies remote_source config (world st) package depth)
      as [[w call] dependencies] eqn:Hget.
    rewrite (iteration_fresh _ _ _ _ _ _ Hnot Hget). cbv zeta. simpl.
    destruct (depth + 1 <? max_depth config) eqn:Hd.
    + eexists; split; [reflexivity|].
      unfold new_entries. apply Forall_forall. intros e He.
      apply list_elem_of_fmap in He as [dep [-> _]]. simpl. lia.
    + exists []. split; [reflexivity | constructor].
Qed.

Lemma loop_done (fuel : nat) (st : BfsState World) :
  queue st = [] -> loop fuel st = Some st.
Proof. intros H. destruct fuel; simpl; now rewrite H. Qed.

Lemma loop_step (fuel : nat) (st : BfsState World) (package : string)
    (depth : Z) (rest : list (string * Z)) :
  queue st = (package, depth) :: rest ->
  loop (S fuel) st = loop fuel (iteration package depth (with_queue rest st)).
Proof. intros H. simpl. now rewrite H. Qed.

(** More iterations than needed do not change the result. *)
Lemma loop_fuel_mono (fuel fuel' : nat) (st final : BfsState World) :
  (fuel <= fuel')%nat -> loop fuel st = Some final -> loop fuel' st = Some final.
Proof.
  revert fuel' st. induction fuel as [|fuel IH]; intros fuel' st Hle Hrun.
  - destruct (queue st) as [|[p d] rest] eqn:Hq.
    + rewrite loop_done in Hrun by assumption. now rewrite loop_done.
    + simpl in Hrun. rewrite Hq in Hrun. discriminate.
  - destruct (queue st) as [|[p d] rest] eqn:Hq.
    + rewrite loop_done in Hrun by assumption. now rewrite loop_done.
    + destruct fuel' as [|fuel']; [lia|].
      rewrite (loop_step _ _ _ _ _ Hq) in Hrun. rewrite (loop_step _ _ _ _ _ Hq).
      apply IH; [lia | assumption].
Qed.

Lemma loop_functional (fuel fuel' : nat) (st final final' : BfsState World) :
  loop fuel st = Some final -> loop fuel' st = Some final' -> final = final'.
Proof.
  intros H H'.
  apply (loop_fuel_mono _ (Nat.max fuel fuel')) in H; [|lia].
  apply (loop_fuel_mono _ (Nat.max fuel fuel')) in H'; [|lia].
  congruence.
Qed.

Lemma loop_final_queue (fuel : nat) (st final : BfsState World) :
  loop fuel st = Some final -> queue final = [].
Proof.
  revert st. induction fuel as [|fuel IH]; intros st Hrun;
    destruct (queue st) as [|[p d] rest] eqn:Hq.
  - rewrite loop_done in Hrun by assumption. congruence.
  - simpl in Hrun. rewrite Hq in Hrun. discriminate.
  - rewrite loop_done in Hrun by assumption. congruence.
  - rewrite (loop_step _ _ _ _ _ Hq) in Hrun. eauto.
Qed.

(** *** Termination *)

(** If the entries of [q1] satisfy [B], everything they enqueue satisfies
    [B'], and the loop returns from every queue of [B'] entries, then it
    returns from [q1] followed by [B'] entries. *)
Lemma loop_returns_layer (B B' : string * Z -> Prop) :
  (forall package depth st e,
     B (package, depth) ->
     e ∈ drop (length (queue st)) (queue (iteration package depth st)) -> B' e) ->
  (forall st, Forall B' (queue st) -> exists fuel final, loop fuel st = Some final) ->
  forall q1, Forall B q1 ->
  forall st q2, queue st = q1 ++ q2 -> Forall B' q2 ->
  exists fuel final, loop fuel st = Some final.
Proof.
  intros Hadd Hlow q1. induction q1 as [|[p d] q1 IH]; intros HB st q2 Hq HB'.
  - apply Hlow. now rewrite Hq.
  - apply Forall_cons in HB as [HBp HBq1].
    destruct (iteration_queue p d (with_queue (q1 ++ q2) st)) as [added [Hqueue _]].
    simpl in Hqueue.
    destruct (IH HBq1 (iteration p d (with_queue (q1 ++ q2) st)) (q2 ++ added))
      as [fuel [final Hrun]].
    + now rewrite Hqueue, app_assoc.
    + apply Forall_app. split; [assumption|].
      apply Forall_forall. intros e He.
      apply (Hadd p d (with_queue (q1 ++ q2) st)); [assumption|].
      simpl. now rewrite Hqueue, drop_app_length.
    + exists (S fuel), final. now rewrite (loop_step _ _ _ _ _ Hq).
Qed.

(** The loop returns from every queue whose entries are at most [n] levels
    above the last expanded one. *)
Lemma loop_returns_bounded (n : nat) (st : BfsState World) :
  Forall (fun e => max_depth config - (e.2 + 1) <= Z.of_nat n) (queue st) ->
  exists fuel final, loop fuel st = Some final.
Proof.
  revert st. induction n as [|n IH]; intros st Hq.
  - apply (loop_returns_layer
             (fun e => max_depth config - (e.2 + 1) <= 0) (fun _ => False))
      with (q1 := queue st) (q2 := []).
    + intros p d st' e HB He.
      destruct (iteration_queue p d st') as [added [Hqueue Hadded]].
      rewrite Hqueue, drop_app_length in He.
      rewrite Forall_forall in Hadded. apply Hadded in He. simpl in HB. lia.
    + intros st' H. exists O, st'. apply loop_done.
      destruct (queue st'); [reflexivity|]. now apply Forall_cons in H as [[] _].
    + assumption.
    + now rewrite app_nil_r.
    + constructor.
  - apply (loop_returns_layer
             (fun e => max_depth config - (e.2 + 1) <= Z.of_nat (S n))
             (fun e => max_depth config - (e.2 + 1) <= Z.of_nat n))
      with (q1 := queue st) (q2 := []).
    + intros p d st' e HB He.
      destruct (iteration_queue p d st') as [added [Hqueue Hadded]].
      rewrite Hqueue, drop_app_length in He.
      rewrite Forall_forall in Hadded. apply Hadded in He. simpl in HB. lia.
    + exact IH.
    + assumption.
    + now rewrite app_nil_r.
    + constructor.
Qed.

(** The loop returns from every state, whatever the source answers. *)
Lemma loop_returns (st : BfsState World) :
  exists fuel final, loop fuel st = Some final.
Proof.
  assert (Hbound : forall q : list (string * Z),
             exists n, Forall (fun e => max_depth config - (e.2 + 1) <= Z.of_nat n) q).
  { induction q as [|e q [n Hn]]; [exists O; constructor|].
    exists (Nat.max n (Z.to_nat (max_depth config - (e.2 + 1)))).
    constructor; [lia|].
    eapply Forall_impl; [exact Hn|]. intros x Hx. simpl in Hx. lia. }
  destruct (Hbound (queue st)) as [n Hn].
  now apply (loop_returns_bounded n).
Qed.

End BuilderFacts.

Section BuilderInvariant.

Context {World : Type}.
Context {L : StrLower}.
Variable remote_source : World -> string -> string -> World * option (list Dep).
Variable config : Config.

Local Abbreviation iteration := (bfs_iteration remote_source config).
Local Abbreviation loop := (bfs_loop remote_source config).
Local Abbreviation root := (package_name config).
Local Abbreviation Inv := (traversal_invariant config).

(** An iteration either skips a visited package or expands a fresh one. *)
Lemma iteration_cases (package : string) (depth : Z) (st : BfsState World) :
  ((package ∈ visited_packages st) /\ iteration package depth st = st) \/
  ((package ∉ visited_packages st) /\
   exists w call stored added,
     iteration package depth st
     = {| queue := queue st ++ added;
          dependency_graph := Dict.set package stored (dependency_graph st);
          visited_packages := {[package]} ∪ visited_packages st;
          world := w;
          expansions :=
            expansions st ++ [mkExpansion package depth call stored added] |} /\
     Forall (fun e => e.2 = depth + 1 /\ depth + 1 < max_depth config /\
                      exists dep, dep ∈ stored /\ e.1 = dep_key dep) added).
Proof.
  destruct (decide (package ∈ visited_packages st)) as [Hin|Hnot].
  - left. split; [assumption | now apply iteration_visited].
  - right. split; [assumption|].
    destruct (get_package_dependencies remote_source config (world st) package depth)
      as [[w call] dependencies] eqn:Hget.
    rewrite (iteration_fresh _ _ _ _ _ _ _ _ Hnot Hget). cbv zeta.
    do 4 eexists. split; [reflexivity|].
    destruct (depth + 1 <? max_depth config) eqn:Hd; [|constructor].
    unfold new_entries. apply Forall_forall. intros e He.
    apply list_elem_of_fmap in He as [dep [-> Hdep]].
    apply list_elem_of_filter in Hdep as [_ Hdep]. simpl.
    repeat split; try lia; eauto.
Qed.

(** Entries of visited packages are never assigned again, and visited
    packages stay visited. *)
Lemma loop_keeps_visited (fuel : nat) (st final : BfsState World) (k : string) :
  loop fuel st = Some final -> k ∈ visited_packages st ->
  k ∈ visited_packages final /\
  Dict.get k (dependency_graph final) = Dict.get k (dependency_graph st).
Proof.
  revert st. induction fuel as [|fuel IH]; intros st Hrun Hk;
    destruct (queue st) as [|[p d] rest] eqn:Hq;
    try (rewrite loop_done in Hrun by assumption; injection Hrun as <-; now split).
  - simpl in Hrun. rewrite Hq in Hrun. discriminate.
  - rewrite (loop_step _ _ _ _ _ _ _ Hq) in Hrun.
    destruct (iteration_cases p d (with_queue rest st))
      as [[_ Heq]|[Hnot (w & call & stored & added & Heq & _)]];
      rewrite Heq in Hrun; apply IH in Hrun; simpl in *; try assumption.
    + destruct Hrun as [Hin ->].
      split; [assumption|]. apply DictFacts.get_set_ne. intros ->. contradiction.
    + set_solver.
Qed.

(** Every entry of the queue is visited by the time the loop returns. *)
Lemma loop_visits_queue (fuel : nat) (st final : BfsState World) (e : string * Z) :
  loop fuel st = Some final -> e ∈ queue st -> e.1 ∈ visited_packages final.
Proof.
  revert st. induction fuel as [|fuel IH]; intros st Hrun He;
    destruct (queue st) as [|[p d] rest] eqn:Hq; try (now inversion He).
  - simpl in Hrun. rewrite Hq in Hrun. discriminate.
  - rewrite (loop_step _ _ _ _ _ _ _ Hq) in Hrun.
    assert (Hp : p ∈ visited_packages (iteration p d (with_queue rest st))).
    { destruct (iteration_cases p d (with_queue rest st))
        as [[Hin Heq]|[Hnot (w & call & stored & added & Heq & _)]];
        rewrite Heq; simpl; [assumption | set_solver]. }
    assert (Hrest : forall x, x ∈ rest ->
                      x ∈ queue (iteration p d (with_queue rest st))).
    { intros x Hx.
      destruct (iteration_queue remote_source config p d (with_queue rest st))
        as [added [-> _]]. simpl. apply elem_of_app. now left. }
    apply elem_of_cons in He as [->|He].
    + simpl. now apply (loop_keeps_visited _ _ _ _ Hrun).
    + apply (IH _ Hrun). now apply Hrest.
Qed.

Lemma reached_set_fresh (graph : Dict.t) (package k : string) (d : Z)
    (stored : list Dep) :
  package ∉ Dict.keys graph ->
  reached graph root k d -> reached (Dict.set package stored graph) root k d.
Proof.
  intros Hfresh Hreach. induction Hreach as [|parent d deps dep _ IH Hget Hdep].
  - constructor.
  - apply (reached_step _ _ parent d deps dep); [assumption| |assumption].
    rewrite DictFacts.get_set_ne; [assumption|].
    intros ->. apply Hfresh. apply DictFacts.get_keys. eauto.
Qed.

Lemma invariant_initial (w : World) : Inv (initial_state config w).
Proof.
  constructor; simpl.
  - reflexivity.
  - intros k. split; intros H; [set_solver | inversion H].
  - constructor.
  - intros e H. inversion H.
  - intros e H. inversion H.
  - intros e H. inversion H.
  - intros e H. apply list_elem_of_singleton in H as ->. constructor.
  - intros e H. apply list_elem_of_singleton in H as ->. now left.
Qed.

(** One iteration keeps the invariant. *)
Lemma iteration_preserves_invariant (st : BfsState World) (package : string)
    (depth : Z) (rest : list (string * Z)) :
  Inv st -> queue st = (package, depth) :: rest ->
  Inv (iteration package depth (with_queue rest st)).
Proof.
  intros HI Hq.
  assert (Hhead : (package, depth) ∈ queue st) by (rewrite Hq; left).
  assert (Hrest : forall e, e ∈ rest -> e ∈ queue st)
    by (intros e He; rewrite Hq; now right).
  destruct (iteration_cases package depth (with_queue rest st))
    as [[Hin Heq]|[Hnot (w & call & stored & added & Heq & Hadded)]];
    rewrite Heq; clear Heq; simpl in *.
  - destruct HI. constructor; simpl; auto.
  - assert (Hfresh : package ∉ Dict.keys (dependency_graph st))
      by (now rewrite <- (inv_visited _ _ HI)).
    assert (Hold : forall e, e ∈ expansions st -> exp_package e <> package).
    { intros e He Heq. apply Hfresh. rewrite <- Heq, (inv_keys _ _ HI).
      apply list_elem_of_fmap. eauto. }
    assert (Hdepth : (package = root /\ depth = 0) \/ 0 < depth < max_depth config).
    { destruct (inv_queue_depth _ _ HI _ Hhead) as [[= -> ->]|H]; auto. }
    assert (Hreach : reached (Dict.set package stored (dependency_graph st))
                             root package depth).
    { apply reached_set_fresh; [assumption|].
      apply (inv_queue_reached _ _ HI _ Hhead). }
    rewrite Forall_forall in Hadded.
    constructor; simpl.
    + rewrite (DictFacts.keys_set_new _ _ _ Hfresh), DictFacts.keys_app.
      rewrite map_app, (inv_keys _ _ HI). reflexivity.
    + intros k. rewrite (DictFacts.keys_set_new _ _ _ Hfresh), DictFacts.keys_app.
      rewrite elem_of_app, <- (inv_visited _ _ HI k). simpl.
      rewrite list_elem_of_singleton. set_solver.
    + rewrite (DictFacts.keys_set_new _ _ _ Hfresh), DictFacts.keys_app. simpl.
      apply NoDup_app. split; [apply (inv_nodup _ _ HI)|].
      split; [|apply NoDup_singleton].
      intros k Hk Hk'. apply list_elem_of_singleton in Hk' as ->. contradiction.
    + intros e He. apply elem_of_app in He as [He|He].
      * rewrite DictFacts.get_set_ne; [now apply (inv_stored _ _ HI)|].
        intros Heq. now apply (Hold e).
      * apply list_elem_of_singleton in He as ->. simpl.
        apply DictFacts.get_set_eq.
    + intros e He. apply elem_of_app in He as [He|He].
      * apply reached_set_fresh; [assumption | now apply (inv_reached _ _ HI)].
      * apply list_elem_of_singleton in He as ->. exact Hreach.
    + intros e He. apply elem_of_app in He as [He|He].
      * now apply (inv_depth _ _ HI).
      * apply list_elem_of_singleton in He as ->. exact Hdepth.
    + intros e He. apply elem_of_app in He as [He|He].
      * apply reached_set_fresh; [assumption|].
        apply (inv_queue_reached _ _ HI). now apply Hrest.
      * destruct (Hadded e He) as (He2 & _ & dep & Hdep & He1).
        rewrite He1, He2.
        apply (reached_step _ _ package depth stored dep);
          [exact Hreach | apply DictFacts.get_set_eq | exact Hdep].
    + intros e He. apply elem_of_app in He as [He|He].
      * apply (inv_queue_depth _ _ HI). now apply Hrest.
      * destruct (Hadded e He) as (He2 & Hlt & _). right. lia.
Qed.

(** The loop keeps the invariant. *)
Lemma loop_preserves_invariant (fuel : nat) (st final : BfsState World) :
  Inv st -> loop fuel st = Some final -> Inv final.
Proof.
  revert st. induction fuel as [|fuel IH]; intros st HI Hrun;
    destruct (queue st) as [|[p d] rest] eqn:Hq;
    try (rewrite loop_done in Hrun by assumption; now injection Hrun as <-).
  - simpl in Hrun. rewrite Hq in Hrun. discriminate.
  - rewrite (loop_step _ _ _ _ _ _ _ Hq) in Hrun.
    apply (IH _ (iteration_preserves_invariant _ _ _ _ HI Hq) Hrun).
Qed.

(** [build_dependency_graph] returns, and what it returns does not depend
    on the bound on the iterations. *)
Lemma build_returns_total (w : World) :
  exists st, build_returns remote_source config w st.
Proof.
  destruct (loop_returns remote_source config (initial_state config w))
    as [fuel [final Hrun]].
  exists final, fuel. exact Hrun.
Qed.

Lemma build_returns_functional (w : World) (st st' : BfsState World) :
  build_returns remote_source config w st ->
  build_returns remote_source config w st' -> st = st'.
Proof. intros [fuel H] [fuel' H']. exact (loop_functional _ _ _ _ _ _ _ H H'). Qed.

Lemma build_returns_invariant (w : World) (st : BfsState World) :
  build_returns remote_source config w st -> Inv st /\ queue st = [].
Proof.
  intros [fuel Hrun]. split.
  - exact (loop_preserves_invariant _ _ _ (invariant_initial w) Hrun).
  - exact (loop_final_queue _ _ _ _ _ Hrun).
Qed.

End BuilderInvariant.

(** ** Runs of the graph builder *)

Lemma NoDup_map_filter {A B} (f : A -> B) (p : A -> bool) (l : list A) :
  NoDup (map f l) -> NoDup (map f (List.filter p l)).
Proof.
  induction l as [|x l IH]; simpl; intros H; [constructor|].
  apply NoDup_cons in H as [Hx Hl].
  destruct (p x); simpl; [|auto].
  apply NoDup_cons. split; [|auto].
  intros Hin. apply Hx.
  apply list_elem_of_fmap in Hin as [y [-> Hy]].
  apply list_elem_of_fmap. exists y. split; [reflexivity|].
  apply list_elem_of_In. apply list_elem_of_In in Hy.
  now apply List.filter_In in Hy as [Hy _].
Qed.

(** C1. Whatever the root, the depth bound, the dependency source and the
    filter, the traversal returns, and in what it returns the keys of the
    graph are pairwise distinct, they are the expanded packages in the order
    of their expansion, no package was expanded twice, and the list of the
    packages for which the dependency source was called has no repetition. *)
Theorem build_expands_each_coordinate_once {L : StrLower} {World : Type}
    (remote_source : World -> string -> string -> World * option (list Dep))
    (config : Config) (w : World) :
  (exists st, build_returns remote_source config w st) /\
  (forall st, build_returns remote_source config w st ->
     NoDup (Dict.keys (dependency_graph st)) /\
     Dict.keys (dependency_graph st) = map exp_package (expansions st) /\
     NoDup (map exp_package (expansions st)) /\
     NoDup (fetched_packages (expansions st))).
Proof.
  split; [apply build_returns_total|].
  intros st Hst.
  destruct (build_returns_invariant _ _ _ _ Hst) as [HI _].
  pose proof (inv_nodup _ _ HI) as Hnodup.
  pose proof (inv_keys _ _ HI) as Hkeys.
  repeat split; try assumption.
  - now rewrite <- Hkeys.
  - unfold fetched_packages. apply NoDup_map_filter. now rewrite <- Hkeys.
Qed.

Lemma get_package_dependencies_below_bound {World : Type}
    (remote_source : World -> string -> string -> World * option (list Dep))
    (config : Config) (w : World) (package : string) (depth : Z) :
  depth < max_depth config ->
  get_package_dependencies remote_source config w package depth
  = source_dependencies remote_source config w package.
Proof.
  intros H. unfold get_package_dependencies.
  destruct (depth >=? max_depth config) eqn:Hd; [lia | reflexivity].
Qed.

(** C2. In any state of the traversal whose queue starts with an unvisited
    package at depth [max_depth - 1], the iteration stores, as the package's
    graph entry, the filtered list that the source gives for it, and leaves
    the rest of the queue as it is: nothing is enqueued. The loop then runs
    to its end and the entry is still there. In the graph that a build
    returns, every key is reached from the root through stored lists in a
    number of steps that is 0 for the root and otherwise lies strictly
    between 0 and [max_depth]; so a dependency of a package at depth
    [max_depth - 1] is a key only if it is reached in fewer than [max_depth]
    steps. *)
Theorem boundary_package_recorded_not_expanded {L : StrLower} {World : Type}
    (remote_source : World -> string -> string -> World * option (list Dep))
    (config : Config) :
  (forall (st : BfsState World) package rest,
     queue st = (package, max_depth config - 1) :: rest ->
     package ∉ visited_packages st ->
     let stored :=
       _apply_filter config
         (source_dependencies remote_source config (world st) package).2 in
     let st' :=
       bfs_iteration remote_source config package (max_depth config - 1)
         (with_queue rest st) in
     dependency_graph st' = Dict.set package stored (dependency_graph st) /\
     queue st' = rest /\
     exists final,
       (exists fuel, bfs_loop remote_source config fuel st = Some final) /\
       Dict.get package (dependency_graph final) = Some stored) /\
  (forall w st,
     build_returns remote_source config w st ->
     forall k, k ∈ Dict.keys (dependency_graph st) ->
       exists d,
         reached (dependency_graph st) (package_name config) k d /\
         ((k = package_name config /\ d = 0) \/ 0 < d < max_depth config)).
Proof.
  split.
  - intros st package rest Hq Hnot stored st'.
    destruct (source_dependencies remote_source config (world st) package)
      as [[w call] dependencies] eqn:Hsrc.
    assert (Hget : get_package_dependencies remote_source config
                     (world (with_queue rest st)) package (max_depth config - 1)
                   = (w, call, dependencies)).
    { rewrite get_package_dependencies_below_bound by lia. exact Hsrc. }
    assert (Hst' : st' = {| queue := rest;
                            dependency_graph :=
                              Dict.set package stored (dependency_graph st);
                            visited_packages := {[package]} ∪ visited_packages st;
                            world := w;
                            expansions :=
                              expansions st ++
                              [mkExpansion package (max_depth config - 1) call
                                 stored []] |}).
    { unfold st'.
      rewrite (iteration_fresh _ _ package _ (with_queue rest st) _ _ _ Hnot Hget).
      cbv zeta.
      destruct (max_depth config - 1 + 1 <? max_depth config) eqn:Hd; [lia|].
      simpl. now rewrite app_nil_r. }
    rewrite Hst'. simpl. split; [reflexivity|]. split; [reflexivity|].
    destruct (loop_returns remote_source config st') as [fuel [final Hrun]].
    exists final. split.
    + exists (S fuel). now rewrite (loop_step _ _ _ _ _ _ _ Hq).
    + assert (Hin : package ∈ visited_packages st')
        by (rewrite Hst'; cbn [visited_packages]; set_solver).
      destruct (loop_keeps_visited _ _ _ _ _ package Hrun Hin) as [_ ->].
      rewrite Hst'. cbn [dependency_graph]. apply DictFacts.get_set_eq.
  - intros w st Hst k Hk.
    destruct (build_returns_invariant _ _ _ _ Hst) as [HI _].
    rewrite (inv_keys _ _ HI) in Hk.
    apply list_elem_of_fmap in Hk as [e [-> He]].
    exists (exp_depth e). split.
    + now apply (inv_reached _ _ HI).
    + now apply (inv_depth _ _ HI).
Qed.

Lemma boundary_package_in_the_diamond :
  let stored := [mkDep "d" "d" "1.0"] in
  let st' := bfs_iteration diamond_source (diamond_config 2) "b:b" 1
               (with_queue [("c:c", 1)] boundary_state) in
  dependency_graph st' = Dict.set "b:b" stored (dependency_graph boundary_state) /\
  queue st' = [("c:c", 1)] /\
  exists final,
    (exists fuel, bfs_loop diamond_source (diamond_config 2) fuel boundary_state
                  = Some final) /\
    Dict.get "b:b" (dependency_graph final) = Some stored.
Proof.
  apply (proj1 (boundary_package_recorded_not_expanded diamond_source
                  (diamond_config 2)) boundary_state "b:b" [("c:c", 1)]).
  - reflexivity.
  - vm_compute. intros H. discriminate H.
Defined.

(** C3, as the specification states it, fails: with depth 2 the traversal of
    the diamond does not return the graph in which [b:b] and [c:c] have
    empty lists. *)
Lemma scenario_C_expected_graph_not_built :
  ~ exists st,
      build_returns diamond_source (diamond_config 2) tt st /\
      dependency_graph st = scenario_C_expected_graph.
Proof.
  intros [st [Hst Hgraph]].
  assert (Hrun : exists st',
             build_dependency_graph diamond_source (diamond_config 2) 3 tt = Some st' /\
             Dict.get "b:b" (dependency_graph st') = Some [mkDep "d" "d" "1.0"]).
  { eexists. split; vm_compute; reflexivity. }
  destruct Hrun as [st' [Hrun Hb]].
  assert (st = st')
    by (apply (build_returns_functional _ _ _ _ _ Hst); now exists 3%nat).
  subst st'. rewrite Hgraph in Hb. discriminate.
Qed.

(** C3, amended. For the diamond source, building with depth 2 and no filter
    returns exactly the graph in which [a:a] has the list [b:b, c:c] and
    [b:b] and [c:c] each have the list [d:d]; [d:d] is not a key of the
    graph. *)
Theorem scenario_C_graph :
  exists st,
    build_returns diamond_source (diamond_config 2) tt st /\
    dependency_graph st
    = [("a:a", [mkDep "b" "b" "1.0"; mkDep "c" "c" "1.0"]);
       ("b:b", [mkDep "d" "d" "1.0"]);
       ("c:c", [mkDep "d" "d" "1.0"])] /\
    Dict.mem "d:d" (dependency_graph st) = false.
Proof.
  eexists. split; [exists 3%nat; vm_compute; reflexivity|].
  split; reflexivity.
Qed.

(** C4, as the specification states it, fails: for the root [abc], which has
    no [:], the traversal returns a graph instead of raising. *)
Lemma malformed_root_is_not_fatal :
  PyStr.split ":" "abc" = ["abc"] /\
  exists st,
    build_returns diamond_source (mkConfig "abc" 3 None Remote) tt st /\
    dependency_graph st = [("abc", [])].
Proof.
  split; [reflexivity|].
  eexists. split; [exists 1%nat; vm_compute; reflexivity | reflexivity].
Qed.

Lemma source_dependencies_malformed {World : Type}
    (remote_source : World -> string -> string -> World * option (list Dep))
    (config : Config) (w : World) (package : string) :
  length (PyStr.split ":" package) <> 2%nat ->
  source_dependencies remote_source config w package = (w, NotCalled, []).
Proof.
  intros H. unfold source_dependencies.
  destruct (PyStr.split ":" package) as [|a [|b [|c l]]]; try reflexivity.
  now contradiction H.
Qed.

Lemma get_package_dependencies_malformed {World : Type}
    (remote_source : World -> string -> string -> World * option (list Dep))
    (config : Config) (w : World) (package : string) (depth : Z) :
  length (PyStr.split ":" package) <> 2%nat ->
  get_package_dependencies remote_source config w package depth
  = (w, NotCalled, []).
Proof.
  intros H. unfold get_package_dependencies.
  rewrite source_dependencies_malformed by assumption.
  now destruct (depth >=? max_depth config).
Qed.

(** C4, amended. The traversal raises for no root: it always returns a
    graph. For a root that does not split at [:] into exactly two parts the
    graph has the root as its only key, with an empty list. *)
Theorem build_returns_for_every_root {L : StrLower} {World : Type}
    (remote_source : World -> string -> string -> World * option (list Dep))
    (config : Config) (w : World) :
  (exists st, build_returns remote_source config w st) /\
  (forall st, build_returns remote_source config w st ->
     length (PyStr.split ":" (package_name config)) <> 2%nat ->
     dependency_graph st = [(package_name config, [])]).
Proof.
  split; [apply build_returns_total|].
  intros st Hst Hroot.
  assert (Hrun : exists st',
             build_dependency_graph remote_source config 1 w = Some st' /\
             dependency_graph st' = [(package_name config, [])]).
  { unfold build_dependency_graph.
    rewrite (loop_step remote_source config 0 (initial_state config w)
               (package_name config) 0 [] eq_refl).
    rewrite (iteration_fresh _ _ _ _ _ w NotCalled []); cycle 1.
    - simpl. set_solver.
    - now apply get_package_dependencies_malformed.
    - cbv zeta. rewrite apply_filter_nil.
      destruct (0 + 1 <? max_depth config); simpl; eexists; split; reflexivity. }
  destruct Hrun as [st' [Hrun Hgraph]].
  rewrite (build_returns_functional _ _ _ _ _ Hst (ex_intro _ 1%nat Hrun)).
  exact Hgraph.
Qed.

(** C5. In any state of the traversal whose queue starts with an unvisited
    package for which the remote source is consulted and fails, the
    iteration records the package with an empty list and leaves the rest of
    the queue as it is; the loop then runs to its end with an empty queue,
    the package still has its empty list, and every entry that was waiting
    in the queue has been visited. *)
Theorem failed_fetch_is_recorded_as_leaf {L : StrLower} {World : Type}
    (remote_source : World -> string -> string -> World * option (list Dep))
    (config : Config) (st : BfsState World)
    (package : string) (depth : Z) (rest : list (string * Z))
    (group_id artifact_id : string) (w : World) :
  queue st = (package, depth) :: rest ->
  package ∉ visited_packages st ->
  depth < max_depth config ->
  mode config = Remote ->
  PyStr.split ":" package = [group_id; artifact_id] ->
  remote_source (world st) group_id artifact_id = (w, None) ->
  let st' := bfs_iteration remote_source config package depth (with_queue rest st) in
  dependency_graph st' = Dict.set package [] (dependency_graph st) /\
  queue st' = rest /\
  exists final,
    (exists fuel, bfs_loop remote_source config fuel st = Some final) /\
    Dict.get package (dependency_graph final) = Some [] /\
    queue final = [] /\
    (forall e, e ∈ rest -> e.1 ∈ visited_packages final).
Proof.
  intros Hq Hnot Hdepth Hmode Hsplit Hfail st'.
  assert (Hget : get_package_dependencies remote_source config
                   (world (with_queue rest st)) package depth
                 = (w, Failed, [])).
  { rewrite get_package_dependencies_below_bound by assumption.
    unfold source_dependencies. simpl. now rewrite Hsplit, Hmode, Hfail. }
  assert (Hst' : st' = {| queue := rest;
                          dependency_graph :=
                            Dict.set package [] (dependency_graph st);
                          visited_packages := {[package]} ∪ visited_packages st;
                          world := w;
                          expansions :=
                            expansions st ++
                            [mkExpansion package depth Failed [] []] |}).
  { unfold st'.
    rewrite (iteration_fresh _ _ package _ (with_queue rest st) _ _ _ Hnot Hget).
    cbv zeta. rewrite apply_filter_nil. simpl.
    destruct (depth + 1 <? max_depth config); now rewrite app_nil_r. }
  rewrite Hst'. simpl. split; [reflexivity|]. split; [reflexivity|].
  destruct (loop_returns remote_source config st') as [fuel [final Hrun]].
  exists final. split; [|split; [|split]].
  - exists (S fuel). now rewrite (loop_step _ _ _ _ _ _ _ Hq).
  - assert (Hin : package ∈ visited_packages st')
      by (rewrite Hst'; cbn [visited_packages]; set_solver).
    destruct (loop_keeps_visited _ _ _ _ _ package Hrun Hin) as [_ ->].
    rewrite Hst'. cbn [dependency_graph]. apply DictFacts.get_set_eq.
  - exact (loop_final_queue _ _ _ _ _ Hrun).
  - intros e He. apply (loop_visits_queue _ _ _ _ _ e Hrun).
    rewrite Hst'. exact He.
Qed.

Lemma failed_fetch_is_recorded_as_leaf_witness :
  let st' := bfs_iteration diamond_source (diamond_config 3) "z:z" 1
               (with_queue [("b:b", 1)] midway_state) in
  dependency_graph st' = Dict.set "z:z" [] (dependency_graph midway_state) /\
  queue st' = [("b:b", 1)] /\
  exists final,
    (exists fuel, bfs_loop diamond_source (diamond_config 3) fuel midway_state
                  = Some final) /\
    Dict.get "z:z" (dependency_graph final) = Some [] /\
    queue final = [] /\
    (forall e, e ∈ [("b:b", 1)] -> e.1 ∈ visited_packages final).
Proof.
  apply (failed_fetch_is_recorded_as_leaf diamond_source (diamond_config 3)
           midway_state "z:z" 1 [("b:b", 1)] "z" "z" tt).
  - reflexivity.
  - vm_compute. intros H. discriminate H.
  - reflexivity.
  - reflexivity.
  - reflexivity.
  - reflexivity.
Defined.

(** ** Trees of the diamond *)



(** C10, on the code: for the diamond of scenario A with depth 3 the lines of
    the siblings [b:b] and [c:c] start with the same glyph, the one of a
    last sibling, although [b:b] is not the last; only the siblings printed
    at the depth bound (depth 1 here) get two glyphs. In both trees the
    siblings follow the stored order. *)
Theorem expanded_siblings_share_the_last_glyph :
  _print_tree_node (diamond_config 3) diamond_graph 3 "a:a" 0 ∅
  = Some (["a:a";
           "  └── b:b";
           "    └── d:d";
           "  └── c:c";
           "    └── d:d"], ∅) /\
  _print_tree_node (diamond_config 1) diamond_graph 3 "a:a" 0 ∅
  = Some (["a:a";
           "  ├── b:b (глубина ограничена)";
           "  └── c:c (глубина ограничена)"], ∅).
Proof. split; vm_compute; reflexivity. Qed.

(** * Further properties *)

(** ** The level order of the traversal *)

Section BuilderLevelOrder.

Context {World : Type}.
Context {L : StrLower}.
Variable remote_source : World -> string -> string -> World * option (list Dep).
Variable config : Config.

Local Abbreviation iteration := (bfs_iteration remote_source config).
Local Abbreviation loop := (bfs_loop remote_source config).
Local Abbreviation root := (package_name config).
Local Abbreviation Inv := (traversal_invariant config).
Local Abbreviation Level := (level_order_invariant config).

Lemma get_package_dependencies_result (w w' : World) (package : string)
    (depth : Z) (call : SourceCall) (dependencies : list Dep) :
  get_package_dependencies remote_source config w package depth
  = (w', call, dependencies) ->
  dependencies = source_result call.
Proof.
  unfold get_package_dependencies, source_dependencies.
  destruct (depth >=? max_depth config); [now intros [= <- <- <-]|].
  destruct (PyStr.split ":" package) as [|g [|a [|x l]]];
    try (now intros [= <- <- <-]).
  destruct (mode config); [|now intros [= <- <- <-]].
  destruct (remote_source w g a) as [w0 [l|]]; now intros [= <- <- <-].
Qed.

(** The expansion of a fresh package, with the stored list and the added
    queue entries spelled out. *)
Lemma iteration_expands (package : string) (depth : Z) (st : BfsState World) :
  package ∉ visited_packages st ->
  exists w call,
    get_package_dependencies remote_source config (world st) package depth
    = (w, call, source_result call) /\
    iteration package depth st
    = let stored := _apply_filter config (source_result call) in
      let added :=
        if depth + 1 <? max_depth config
        then new_entries stored ({[package]} ∪ visited_packages st) (depth + 1)
        else [] in
      {| queue := queue st ++ added;
         dependency_graph := Dict.set package stored (dependency_graph st);
         visited_packages := {[package]} ∪ visited_packages st;
         world := w;
         expansions :=
           expansions st ++ [mkExpansion package depth call stored added] |}.
Proof.
  intros Hnot.
  destruct (get_package_dependencies remote_source config (world st) package depth)
    as [[w call] dependencies] eqn:Hget.
  pose proof (get_package_dependencies_result _ _ _ _ _ _ Hget) as ->.
  exists w, call. split; [reflexivity|].
  exact (iteration_fresh _ _ _ _ _ _ _ _ Hnot Hget).
Qed.

Lemma new_entries_elem (dependencies : list Dep) (visited : gset string)
    (next_depth : Z) (q : string * Z) :
  q ∈ new_entries dependencies visited next_depth <->
  exists dep, dep ∈ dependencies /\ (dep_key dep ∉ visited) /\
              q = (dep_key dep, next_depth).
Proof.
  unfold new_entries. rewrite list_elem_of_fmap. split.
  - intros [dep [-> Hdep]]. apply list_elem_of_filter in Hdep as [Hnot Hdep]. eauto.
  - intros [dep (Hdep & Hnot & ->)]. exists dep. split; [reflexivity|].
    apply list_elem_of_filter. auto.
Qed.

Lemma same_depth_sorted (c : Z) (l : list (string * Z)) :
  Forall (fun q => q.2 = c) l -> StronglySorted (fun a b => a.2 <= b.2) l.
Proof.
  induction l as [|q l IH]; intros H; [constructor|].
  apply Forall_cons in H as [Hq Hl]. constructor; [auto|].
  eapply Forall_impl; [exact Hl|]. intros b Hb. simpl in *. lia.
Qed.

Lemma level_initial (w : World) : Level (initial_state config w).
Proof.
  constructor; simpl.
  - intros e H. inversion H.
  - now right.
  - intros q H _. now apply list_elem_of_singleton in H as ->.
  - intros e H. inversion H.
  - now left.
  - repeat constructor.
  - intros a b Ha Hb. apply list_elem_of_singleton in Ha as ->.
    apply list_elem_of_singleton in Hb as ->. simpl. lia.
  - intros e q H. inversion H.
  - constructor.
  - intros e dep H. inversion H.
Qed.

(** One iteration keeps the level order. *)
Lemma iteration_preserves_level (st : BfsState World) (package : string)
    (depth : Z) (rest : list (string * Z)) :
  Inv st -> Level st -> queue st = (package, depth) :: rest ->
  Level (iteration package depth (with_queue rest st)).
Proof.
  intros HI HL Hq.
  assert (Hhead : (package, depth) ∈ queue st) by (rewrite Hq; left).
  assert (Hrest : forall q, q ∈ rest -> q ∈ queue st)
    by (intros q Hin; rewrite Hq; now right).
  pose proof (lo_sorted _ _ HL) as Hsorted. rewrite Hq in Hsorted.
  apply StronglySorted_inv in Hsorted as [Hsorted Hge].
  rewrite Forall_forall in Hge. simpl in Hge.
  assert (Hle : forall q, q ∈ rest -> q.2 <= depth + 1)
    by (intros q Hin; apply (lo_window _ _ HL (package, depth) q); auto).
  assert (Hpast : forall e, e ∈ expansions st -> exp_depth e <= depth)
    by (intros e He; apply (lo_before _ _ HL e (package, depth)); auto).
  assert (Hseen : forall k, k ∈ visited_packages st ->
                    exists e, e ∈ expansions st /\ exp_package e = k).
  { intros k Hk. apply (inv_visited _ _ HI) in Hk.
    rewrite (inv_keys _ _ HI) in Hk.
    apply list_elem_of_fmap in Hk as [e [-> He]]. eauto. }
  destruct (decide (package ∈ visited_packages st)) as [Hin|Hnot].
  - rewrite iteration_visited by exact Hin.
    constructor; simpl.
    + apply (lo_filtered _ _ HL).
    + left. destruct (lo_root _ _ HL) as [H|H]; [exact H|].
      rewrite Hq in H. injection H as -> _ _. exact Hin.
    + intros q Hin'. apply (lo_root_queue _ _ HL). auto.
    + apply (lo_root_expansion _ _ HL).
    + apply (lo_first _ _ HL).
    + exact Hsorted.
    + intros a b Ha Hb. apply (lo_window _ _ HL); auto.
    + intros e q He Hin'. apply (lo_before _ _ HL); auto.
    + apply (lo_history _ _ HL).
    + intros e dep He Hdep.
      destruct (lo_pending _ _ HL e dep He Hdep) as [H|[[q (Hin' & Hq1 & Hq2)]|H]];
        [now left| |now right; right].
      rewrite Hq in Hin'. apply elem_of_cons in Hin' as [->|Hin'].
      * left. destruct (Hseen package Hin) as [e' [He' Hpkg]].
        simpl in Hq1, Hq2.
        exists e'. repeat split; [assumption | congruence |].
        specialize (Hpast e' He'). lia.
      * right; left. eauto.
  - destruct (iteration_expands package depth (with_queue rest st) Hnot)
      as (w & call & _ & ->). cbv zeta. simpl.
    set (stored := _apply_filter config (source_result call)).
    set (visited' := {[package]} ∪ visited_packages st).
    set (added := if depth + 1 <? max_depth config
                  then new_entries stored visited' (depth + 1) else []).
    assert (Hadded : forall q, q ∈ added ->
                       exists dep, dep ∈ stored /\ (dep_key dep ∉ visited') /\
                                   q = (dep_key dep, depth + 1)).
    { intros q Hin'. unfold added in Hin'.
      destruct (depth + 1 <? max_depth config); [|inversion Hin'].
      now apply new_entries_elem in Hin'. }
    assert (Hroot : root ∈ visited').
    { destruct (lo_root _ _ HL) as [H|H]; [unfold visited'; set_solver|].
      rewrite Hq in H. injection H as -> _ _. unfold visited'. set_solver. }
    constructor; simpl.
    + intros e He. apply elem_of_app in He as [He|He].
      * now apply (lo_filtered _ _ HL).
      * now apply list_elem_of_singleton in He as ->.
    + now left.
    + intros q Hin' Hq1. apply elem_of_app in Hin' as [Hin'|Hin'].
      * apply (lo_root_queue _ _ HL); auto.
      * destruct (Hadded q Hin') as (dep & _ & Hfresh & ->). simpl in Hq1.
        exfalso. apply Hfresh. now rewrite Hq1.
    + intros e He Hpkg. apply elem_of_app in He as [He|He].
      * now apply (lo_root_expansion _ _ HL).
      * apply list_elem_of_singleton in He as ->. simpl in *.
        apply (lo_root_queue _ _ HL (package, depth)); auto.
    + right. destruct (lo_first _ _ HL) as [Hnil|(e & history & -> & Hroot0)].
      * rewrite Hnil. eexists _, []. split; [reflexivity|]. simpl.
        destruct (lo_root _ _ HL) as [H|H].
        -- destruct (Hseen _ H) as [e [He _]]. rewrite Hnil in He. inversion He.
        -- rewrite Hq in H. now injection H as -> ->.
      * eexists e, _. split; [reflexivity | exact Hroot0].
    + apply StronglySorted_app. split; [|split].
      * intros a b Ha Hb. destruct (Hadded b Hb) as (dep & _ & _ & ->). simpl.
        now apply Hle.
      * exact Hsorted.
      * apply (same_depth_sorted (depth + 1)). apply Forall_forall.
        intros q Hin'. now destruct (Hadded q Hin') as (dep & _ & _ & ->).
    + intros a b Ha Hb.
      apply elem_of_app in Ha as [Ha|Ha]; apply elem_of_app in Hb as [Hb|Hb].
      * apply (lo_window _ _ HL); auto.
      * destruct (Hadded b Hb) as (dep & _ & _ & ->). simpl.
        specialize (Hge a Ha). lia.
      * destruct (Hadded a Ha) as (dep & _ & _ & ->). simpl.
        specialize (Hle b Hb). lia.
      * destruct (Hadded a Ha) as (dep & _ & _ & ->).
        destruct (Hadded b Hb) as (dep' & _ & _ & ->). simpl. lia.
    + intros e q He Hin'.
      apply elem_of_app in He as [He|He]; apply elem_of_app in Hin' as [Hin'|Hin'].
      * apply (lo_before _ _ HL); auto.
      * destruct (Hadded q Hin') as (dep & _ & _ & ->). simpl.
        specialize (Hpast e He). lia.
      * apply list_elem_of_singleton in He as ->. simpl. now apply Hge.
      * apply list_elem_of_singleton in He as ->.
        destruct (Hadded q Hin') as (dep & _ & _ & ->). simpl. lia.
    + apply StronglySorted_app. split; [|split].
      * intros a b Ha Hb. apply list_elem_of_singleton in Hb as ->. simpl.
        now apply Hpast.
      * apply (lo_history _ _ HL).
      * repeat constructor.
    + intros e dep He Hdep. apply elem_of_app in He as [He|He].
      * destruct (lo_pending _ _ HL e dep He Hdep)
          as [[e' (He' & Hpkg & Hd)]|[[q (Hin' & Hq1 & Hq2)]|H]];
          [| |now right; right].
        -- left. exists e'. split; [apply elem_of_app; now left | auto].
        -- rewrite Hq in Hin'. apply elem_of_cons in Hin' as [->|Hin'].
           ++ left. eexists. split; [apply elem_of_app; right; left|].
              simpl in *. auto.
           ++ right; left. exists q. split; [apply elem_of_app; now left | auto].
      * apply list_elem_of_singleton in He as ->. simpl in *.
        destruct (decide (dep_key dep ∈ visited')) as [Hvis|Hfresh].
        -- left. unfold visited' in Hvis.
           apply elem_of_union in Hvis as [Hvis|Hvis].
           ++ apply elem_of_singleton in Hvis.
              eexists. split; [apply elem_of_app; right; left|].
              simpl. split; [congruence | lia].
           ++ destruct (Hseen _ Hvis) as [e' [He' Hpkg]].
              exists e'. split; [apply elem_of_app; now left|].
              split; [assumption|]. specialize (Hpast e' He'). lia.
        -- destruct (depth + 1 <? max_depth config) eqn:Hd.
           ++ right; left. exists (dep_key dep, depth + 1).
              split; [|simpl; split; [reflexivity | lia]].
              apply elem_of_app. right. unfold added. try rewrite Hd.
              apply new_entries_elem. eauto.
           ++ right; right. lia.
Qed.

(** The loop keeps both invariants. *)
Lemma loop_preserves_level (fuel : nat) (st final : BfsState World) :
  Inv st -> Level st -> loop fuel st = Some final -> Inv final /\ Level final.
Proof.
  revert st. induction fuel as [|fuel IH]; intros st HI HL Hrun;
    destruct (queue st) as [|[p d] rest] eqn:Hq;
    try (rewrite loop_done in Hrun by assumption; now injection Hrun as <-).
  - simpl in Hrun. rewrite Hq in Hrun. discriminate.
  - rewrite (loop_step _ _ _ _ _ _ _ Hq) in Hrun.
    apply (IH _ (iteration_preserves_invariant _ _ _ _ _ _ HI Hq)
                (iteration_preserves_level _ _ _ _ HI HL Hq) Hrun).
Qed.

Lemma build_returns_level (w : World) (st : BfsState World) :
  build_returns remote_source config w st ->
  Inv st /\ Level st /\ queue st = [].
Proof.
  intros [fuel Hrun].
  destruct (loop_preserves_level _ _ _ (invariant_initial config w)
              (level_initial w) Hrun) as [HI HL].
  split; [exact HI|]. split; [exact HL|].
  exact (loop_final_queue _ _ _ _ _ Hrun).
Qed.

(** Two expansions of the same package are the same expansion. *)
Lemma expansion_unique (st : BfsState World) (e e' : Expansion) :
  Inv st -> e ∈ expansions st -> e' ∈ expansions st ->
  exp_package e = exp_package e' -> e = e'.
Proof.
  intros HI. pose proof (inv_nodup _ _ HI) as Hnodup.
  rewrite (inv_keys _ _ HI) in Hnodup. clear HI.
  induction (expansions st) as [|x l IH]; intros He He' Hpkg; [inversion He|].
  simpl in Hnodup. apply NoDup_cons in Hnodup as [Hx Hl].
  apply elem_of_cons in He as [->|He]; apply elem_of_cons in He' as [->|He'].
  - reflexivity.
  - exfalso. apply Hx. rewrite Hpkg. apply list_elem_of_fmap. eauto.
  - exfalso. apply Hx. rewrite <- Hpkg. apply list_elem_of_fmap. eauto.
  - auto.
Qed.

(** Every entry of the graph is the stored list of the expansion of its
    key. *)
Lemma graph_entry_expansion (st : BfsState World) (k : string)
    (dependencies : list Dep) :
  Inv st -> Dict.get k (dependency_graph st) = Some dependencies ->
  exists e, e ∈ expansions st /\ exp_package e = k /\
            exp_stored e = dependencies.
Proof.
  intros HI Hget.
  assert (Hk : k ∈ Dict.keys (dependency_graph st))
    by (apply DictFacts.get_keys; eauto).
  rewrite (inv_keys _ _ HI) in Hk.
  apply list_elem_of_fmap in Hk as [e [-> He]].
  exists e. repeat split; [assumption|].
  rewrite (inv_stored _ _ HI e He) in Hget. congruence.
Qed.

End BuilderLevelOrder.

Section BuilderGraphFacts.

Context {World : Type}.
Context {L : StrLower}.
Variable remote_source : World -> string -> string -> World * option (list Dep).
Variable config : Config.

Local Abbreviation iteration := (bfs_iteration remote_source config).
Local Abbreviation loop := (bfs_loop remote_source config).
Local Abbreviation root := (package_name config).
Local Abbreviation Inv := (traversal_invariant config).

(** The loop only appends to the graph. *)
Lemma loop_extends_graph (fuel : nat) (st final : BfsState World) :
  Inv st -> loop fuel st = Some final ->
  exists extra, dependency_graph final = dependency_graph st ++ extra.
Proof.
  revert st. induction fuel as [|fuel IH]; intros st HI Hrun;
    destruct (queue st) as [|[p d] rest] eqn:Hq;
    try (rewrite loop_done in Hrun by assumption; injection Hrun as <-;
         exists []; now rewrite app_nil_r).
  - simpl in Hrun. rewrite Hq in Hrun. discriminate.
  - rewrite (loop_step _ _ _ _ _ _ _ Hq) in Hrun.
    pose proof (iteration_preserves_invariant remote_source config _ _ _ _ HI Hq)
      as HI'.
    destruct (IH _ HI' Hrun) as [extra ->].
    destruct (iteration_cases remote_source config p d (with_queue rest st))
      as [[_ ->]|[Hnot (w & call & stored & added & -> & _)]]; simpl.
    + eauto.
    + rewrite DictFacts.keys_set_new, <- app_assoc; [eauto|].
      simpl in Hnot. now rewrite <- (inv_visited _ _ HI).
Qed.

(** In test mode a call of [get_package_dependencies] leaves the world as it
    is, does not fail and does not look at the remote repository. *)
Lemma get_package_dependencies_test (w w' : World) (package : string)
    (depth : Z) (call : SourceCall) (dependencies : list Dep)
    (other : World -> string -> string -> World * option (list Dep)) :
  mode config = Test ->
  get_package_dependencies remote_source config w package depth
  = (w', call, dependencies) ->
  w' = w /\ call <> Failed /\
  get_package_dependencies other config w package depth = (w', call, dependencies).
Proof.
  intros Hmode. unfold get_package_dependencies, source_dependencies.
  rewrite Hmode.
  destruct (depth >=? max_depth config); [now intros [= <- <- <-]|].
  destruct (PyStr.split ":" package) as [|g [|a [|x l]]];
    now intros [= <- <- <-].
Qed.

End BuilderGraphFacts.

(** X1. The graph that a build returns is never empty: its first entry is
    the root, with the filtered list that [get_package_dependencies] gives
    for the root at depth 0 in the initial world. *)
Theorem built_graph_starts_with_root {L : StrLower} {World : Type}
    (remote_source : World -> string -> string -> World * option (list Dep))
    (config : Config) (w : World) :
  exists st rest,
    build_returns remote_source config w st /\
    dependency_graph st
    = (package_name config,
       _apply_filter config
         (get_package_dependencies remote_source config w
            (package_name config) 0).2) :: rest.
Proof.
  destruct (loop_returns remote_source config (initial_state config w))
    as [fuel [final Hrun]].
  destruct fuel as [|fuel]; [discriminate|].
  pose proof Hrun as Hrun'.
  rewrite (loop_step remote_source config fuel (initial_state config w)
             (package_name config) 0 [] eq_refl) in Hrun'.
  pose proof (iteration_preserves_invariant remote_source config
                (initial_state config w) (package_name config) 0 []
                (invariant_initial config w) eq_refl) as HI.
  destruct (loop_extends_graph _ _ _ _ _ HI Hrun') as [extra Hgraph].
  destruct (get_package_dependencies remote_source config w (package_name config) 0)
    as [[w' call] dependencies] eqn:Hget.
  rewrite (iteration_fresh remote_source config (package_name config) 0
             (with_queue [] (initial_state config w)) w' call dependencies)
    in Hgraph; [|simpl; set_solver|exact Hget].
  exists final, extra. split; [now exists (S fuel)|].
  rewrite Hgraph. reflexivity.
Qed.

Lemma apply_filter_fixed {L : StrLower} (config : Config) (dependencies : list Dep) :
  _apply_filter config (_apply_filter config dependencies)
  = _apply_filter config dependencies.
Proof.
  destruct (filter_substring config) as [[|c s]|] eqn:Hcfg;
    try (unfold _apply_filter; rewrite Hcfg; reflexivity).
  rewrite !(apply_filter_selects config (String c s)) by (assumption || discriminate).
  apply filter_filter_same.
Qed.

Lemma apply_filter_matches {L : StrLower} (config : Config) (substring : string)
    (dependencies : list Dep) :
  filter_substring config = Some substring -> substring <> "" ->
  Forall (fun dep => matches_substring substring dep = true)
         (_apply_filter config dependencies).
Proof.
  intros Hcfg Hne. rewrite (apply_filter_selects _ _ _ Hcfg Hne).
  apply Forall_forall. intros dep Hdep.
  apply list_elem_of_In, List.filter_In in Hdep. tauto.
Qed.

(** X2. Every list stored in a built graph is a result of the filter: the
    filter leaves it unchanged, and when a non-empty filter substring is
    configured every stored record matches it. *)
Theorem built_graph_lists_pass_filter {L : StrLower} {World : Type}
    (remote_source : World -> string -> string -> World * option (list Dep))
    (config : Config) (w : World) :
  exists st,
    build_returns remote_source config w st /\
    forall k dependencies,
      Dict.get k (dependency_graph st) = Some dependencies ->
      _apply_filter config dependencies = dependencies /\
      forall substring,
        filter_substring config = Some substring -> substring <> "" ->
        Forall (fun dep => matches_substring substring dep = true) dependencies.
Proof.
  destruct (build_returns_total remote_source config w) as [st Hst].
  exists st. split; [exact Hst|].
  destruct (build_returns_level _ _ _ _ Hst) as (HI & HL & _).
  intros k dependencies Hget.
  destruct (graph_entry_expansion config st k dependencies HI Hget)
    as (e & He & _ & <-).
  rewrite (lo_filtered _ _ HL e He). split.
  - apply apply_filter_fixed.
  - intros substring. apply apply_filter_matches.
Qed.

(** X3. The filter prunes the traversal: every key of a built graph other
    than the root is the coordinate of a record stored in the list of some
    key, and so, when a non-empty filter substring is configured, of a
    record that matches it. *)
Theorem built_graph_keys_are_stored_coordinates {L : StrLower} {World : Type}
    (remote_source : World -> string -> string -> World * option (list Dep))
    (config : Config) (w : World) :
  exists st,
    build_returns remote_source config w st /\
    forall k,
      k ∈ Dict.keys (dependency_graph st) -> k <> package_name config ->
      exists parent dependencies dep,
        Dict.get parent (dependency_graph st) = Some dependencies /\
        dep ∈ dependencies /\ dep_key dep = k /\
        forall substring,
          filter_substring config = Some substring -> substring <> "" ->
          matches_substring substring dep = true.
Proof.
  destruct (build_returns_total remote_source config w) as [st Hst].
  exists st. split; [exact Hst|].
  destruct (build_returns_level _ _ _ _ Hst) as (HI & HL & _).
  intros k Hk Hne.
  rewrite (inv_keys _ _ HI) in Hk.
  apply list_elem_of_fmap in Hk as [e [-> He]].
  pose proof (inv_reached _ _ HI e He) as Hreach.
  inversion Hreach as [Hroot|parent d dependencies dep _ Hget Hdep Hkey]; [congruence|].
  exists parent, dependencies, dep. repeat split; try assumption.
  intros substring Hcfg Hs.
  destruct (graph_entry_expansion config st parent dependencies HI Hget)
    as (e' & He' & _ & Hstored).
  pose proof (apply_filter_matches config substring
                (source_result (exp_call e')) Hcfg Hs) as Hall.
  rewrite <- (lo_filtered _ _ HL e' He'), Hstored, Forall_forall in Hall.
  now apply Hall.
Qed.

(** X4. Below the depth bound the graph is closed: when a package was
    expanded at a depth [d] with [d + 1 < max_depth], every record of its
    stored list has its coordinate among the keys of the built graph. *)
Theorem built_graph_closed_below_bound {L : StrLower} {World : Type}
    (remote_source : World -> string -> string -> World * option (list Dep))
    (config : Config) (w : World) :
  exists st,
    build_returns remote_source config w st /\
    forall e, e ∈ expansions st -> exp_depth e + 1 < max_depth config ->
      Dict.get (exp_package e) (dependency_graph st) = Some (exp_stored e) /\
      forall dep, dep ∈ exp_stored e ->
        dep_key dep ∈ Dict.keys (dependency_graph st).
Proof.
  destruct (build_returns_total remote_source config w) as [st Hst].
  exists st. split; [exact Hst|].
  destruct (build_returns_level _ _ _ _ Hst) as (HI & HL & Hq).
  intros e He Hd. split; [now apply (inv_stored _ _ HI)|].
  intros dep Hdep.
  destruct (lo_pending _ _ HL e dep He Hdep)
    as [[e' (He' & Hpkg & _)]|[[q (Hin & _)]|H]].
  - rewrite (inv_keys _ _ HI), <- Hpkg. apply list_elem_of_fmap. eauto.
  - rewrite Hq in Hin. inversion Hin.
  - lia.
Qed.

(** X5. The traversal works level by level: in the history of a build the
    depths of the expansions never decrease, the first expansion is the
    root at depth 0, and the keys of the graph follow this order. *)
Theorem build_expands_in_level_order {L : StrLower} {World : Type}
    (remote_source : World -> string -> string -> World * option (list Dep))
    (config : Config) (w : World) :
  exists st,
    build_returns remote_source config w st /\
    StronglySorted Z.le (map exp_depth (expansions st)) /\
    (exists e history, expansions st = e :: history /\
                       exp_package e = package_name config /\ exp_depth e = 0) /\
    Dict.keys (dependency_graph st) = map exp_package (expansions st).
Proof.
  destruct (build_returns_total remote_source config w) as [st Hst].
  exists st. split; [exact Hst|].
  destruct (build_returns_level _ _ _ _ Hst) as (HI & HL & Hq).
  split; [|split].
  - pose proof (lo_history _ _ HL) as Hsorted.
    induction Hsorted as [|e l _ IH Hall]; simpl; constructor; [exact IH|].
    apply Forall_fmap. exact Hall.
  - destruct (lo_first _ _ HL) as [Hnil|H]; [|exact H].
    destruct (lo_root _ _ HL) as [Hroot|Hroot]; [|congruence].
    apply (inv_visited _ _ HI) in Hroot.
    rewrite (inv_keys _ _ HI), Hnil in Hroot. inversion Hroot.
  - exact (inv_keys _ _ HI).
Qed.

(** In the graph of a finished traversal no path from the root is shorter
    than the depth at which its end was expanded. *)
Lemma reached_not_shorter {L : StrLower} {World : Type} (config : Config) (st : BfsState World)
    (k : string) (d : Z) :
  traversal_invariant config st -> level_order_invariant config st ->
  queue st = [] ->
  reached (dependency_graph st) (package_name config) k d ->
  0 <= d /\
  forall e, e ∈ expansions st -> exp_package e = k -> exp_depth e <= d.
Proof.
  intros HI HL Hq Hreach.
  assert (Hnonneg : forall e, e ∈ expansions st -> 0 <= exp_depth e).
  { intros e He. destruct (inv_depth _ _ HI e He) as [[_ ->]|H]; lia. }
  induction Hreach as [|parent d dependencies dep _ [Hd IH] Hget Hdep].
  - split; [lia|]. intros e He Hpkg.
    rewrite (lo_root_expansion _ _ HL e He Hpkg). lia.
  - split; [lia|]. intros e He Hpkg.
    destruct (graph_entry_expansion config st parent dependencies HI Hget)
      as (ep & Hep & Hparent & Hstored).
    specialize (IH ep Hep Hparent).
    rewrite <- Hstored in Hdep.
    destruct (lo_pending _ _ HL ep dep Hep Hdep)
      as [[e' (He' & Hpkg' & Hle)]|[[q (Hin & _)]|Hbound]].
    + rewrite (expansion_unique config st e e' HI He He') by congruence. lia.
    + rewrite Hq in Hin. inversion Hin.
    + destruct (inv_depth _ _ HI e He) as [[_ ->]|H]; lia.
Qed.

(** X6. The depth at which a build expands a package is its distance from
    the root in the built graph: the stored lists lead from the root to the
    package in that many steps, and in no fewer. *)
Theorem build_depth_is_shortest_distance {L : StrLower} {World : Type}
    (remote_source : World -> string -> string -> World * option (list Dep))
    (config : Config) (w : World) :
  exists st,
    build_returns remote_source config w st /\
    forall e, e ∈ expansions st ->
      reached (dependency_graph st) (package_name config)
              (exp_package e) (exp_depth e) /\
      forall d,
        reached (dependency_graph st) (package_name config) (exp_package e) d ->
        exp_depth e <= d.
Proof.
  destruct (build_returns_total remote_source config w) as [st Hst].
  exists st. split; [exact Hst|].
  destruct (build_returns_level _ _ _ _ Hst) as (HI & HL & Hq).
  intros e He. split; [now apply (inv_reached _ _ HI)|].
  intros d Hreach.
  now apply (reached_not_shorter config st (exp_package e) d HI HL Hq Hreach).
Qed.

Section TestMode.

Context {World : Type}.
Context {L : StrLower}.
Variables remote_source other_source :
  World -> string -> string -> World * option (list Dep).
Variable config : Config.
Hypothesis test_mode : mode config = Test.

Lemma iteration_test_mode (package : string) (depth : Z) (st : BfsState World) :
  bfs_iteration remote_source config package depth st
  = bfs_iteration other_source config package depth st /\
  world (bfs_iteration remote_source config package depth st) = world st /\
  forall e, e ∈ expansions (bfs_iteration remote_source config package depth st) ->
    e ∈ expansions st \/ exp_call e <> Failed.
Proof.
  destruct (decide (package ∈ visited_packages st)) as [Hin|Hnot].
  - rewrite !iteration_visited by assumption. auto.
  - destruct (get_package_dependencies remote_source config (world st) package depth)
      as [[w call] dependencies] eqn:Hget.
    destruct (get_package_dependencies_test remote_source config _ _ _ _ _ _
                other_source test_mode Hget) as (-> & Hcall & Hother).
    rewrite (iteration_fresh _ _ _ _ _ _ _ _ Hnot Hget),
            (iteration_fresh _ _ _ _ _ _ _ _ Hnot Hother).
    cbv zeta. simpl. repeat split.
    intros e He. apply elem_of_app in He as [He|He]; [now left|].
    apply list_elem_of_singleton in He as ->. now right.
Qed.

Lemma loop_test_mode (fuel : nat) (st : BfsState World) :
  bfs_loop remote_source config fuel st = bfs_loop other_source config fuel st /\
  forall final, bfs_loop remote_source config fuel st = Some final ->
    world final = world st /\
    forall e, e ∈ expansions final -> e ∈ expansions st \/ exp_call e <> Failed.
Proof.
  revert st. induction fuel as [|fuel IH]; intros st;
    destruct (queue st) as [|[p d] rest] eqn:Hq.
  - rewrite !loop_done by assumption. split; [reflexivity|].
    intros final [= <-]. auto.
  - simpl. rewrite Hq. split; [reflexivity | discriminate].
  - rewrite !loop_done by assumption. split; [reflexivity|].
    intros final [= <-]. auto.
  - rewrite !(loop_step _ _ _ _ _ _ _ Hq).
    destruct (iteration_test_mode p d (with_queue rest st)) as (<- & Hw & Hexp).
    destruct (IH (bfs_iteration remote_source config p d (with_queue rest st)))
      as [-> Hfinal].
    split; [reflexivity|]. intros final Hrun.
    destruct (Hfinal final Hrun) as [-> Hcalls]. split; [exact Hw|].
    intros e He. destruct (Hcalls e He) as [H|H]; [|now right].
    exact (Hexp e H).
Qed.

End TestMode.

(** X7. In test mode a build does not reach the remote repository: its
    result is the same whatever the repository answers, the world is
    returned as it was, and no expansion records a failed call of the
    source. *)
Theorem test_mode_ignores_the_repository {L : StrLower} {World : Type}
    (remote_source other_source :
       World -> string -> string -> World * option (list Dep))
    (package : string) (depth : Z) (substring : option string)
    (fuel : nat) (w : World) :
  let config := mkConfig package depth substring Test in
  build_dependency_graph remote_source config fuel w
  = build_dependency_graph other_source config fuel w /\
  exists st,
    build_returns remote_source config w st /\
    world st = w /\
    forall e, e ∈ expansions st -> exp_call e <> Failed.
Proof.
  intros config. split.
  - apply (loop_test_mode remote_source other_source config eq_refl).
  - destruct (build_returns_total remote_source config w) as [st [fuel' Hst]].
    exists st. split; [now exists fuel'|].
    destruct (proj2 (loop_test_mode remote_source remote_source config eq_refl
                       fuel' (initial_state config w)) st Hst) as [Hw Hcalls].
    split; [exact Hw|].
    intros e He. destruct (Hcalls e He) as [H|H]; [inversion H | exact H].
Qed.

(** ** The tree printer at the depth bound and on built graphs *)

(** X8. When a package is printed at a level whose children would reach
    [max_depth], every record of its stored list is printed as one
    depth-limited line, in the stored order, the last one with the glyph of
    a last sibling and the others with the glyph of an inner sibling. No
    child is expanded or checked against the path: one unit of fuel is
    enough, also when a child is on the path. *)
Theorem tree_children_at_depth_bound (config : Config) (dependency_graph : Dict.t)
    (package : string) (level : Z) (visited : gset string)
    (dependencies : list Dep) :
  package ∉ visited ->
  Dict.get package dependency_graph = Some dependencies ->
  max_depth config <= level + 1 ->
  _print_tree_node config dependency_graph 1 package level visited
  = Some ((PyStr.repeat "  " level
           +:+ (if 0 <? level then "└── " else "") +:+ package)
            :: imap (fun j dep =>
                       PyStr.repeat "  " (level + 1)
                       +:+ (if Z.of_nat j =? Z.of_nat (length dependencies) - 1
                            then "└── " else "├── ")
                       +:+ dep_key dep +:+ " (глубина ограничена)")
                    dependencies,
          visited).
Proof.
  intros Hnot Hget Hlevel. cbn [_print_tree_node].
  destruct (decide (package ∈ visited)); [contradiction|].
  rewrite Hget, print_tree_children_bounded by assumption.
  assert (Hset : ({[package]} ∪ visited) ∖ {[package]} = visited) by set_solver.
  rewrite Hset. reflexivity.
Qed.

Lemma tree_children_at_depth_bound_cycle :
  _print_tree_node (mkConfig "x:x" 2 None Remote) cycle_graph 1 "y:y" 1 {["x:x"]}
  = Some (["  └── y:y"; "    └── x:x (глубина ограничена)"], {["x:x"]}).
Proof.
  apply (tree_children_at_depth_bound (mkConfig "x:x" 2 None Remote) cycle_graph
           "y:y" 1 {["x:x"]} [mkDep "x" "x" "1.0"]).
  - vm_compute. intros H. discriminate H.
  - reflexivity.
  - reflexivity.
Defined.

(** X9. After a build [print_ascii_tree] never reports an empty graph: it
    prints the title, the rule, and then the tree, whose first line is the
    root coordinate without indentation or glyph. *)
Theorem built_graph_tree_starts_with_root {L : StrLower} {World : Type}
    (remote_source : World -> string -> string -> World * option (list Dep))
    (config : Config) (w : World) :
  exists st below,
    build_returns remote_source config w st /\
    forall fuel, (length (dependency_graph st) < fuel)%nat ->
      print_ascii_tree config (dependency_graph st) fuel
      = Some ((LF +:+ "Дерево зависимостей для: " +:+ package_name config)
                :: PyStr.repeat "=" 50
                :: package_name config
                :: below).
Proof.
  destruct (build_returns_total remote_source config w) as [st Hst].
  pose proof Hst as [fuel0 Hrun].
  destruct (build_returns_invariant _ _ _ _ Hst) as [HI _].
  assert (Hkey : exists first rest, dependency_graph st = first :: rest).
  { destruct fuel0 as [|fuel0]; [discriminate|].
    unfold build_dependency_graph in Hrun.
    rewrite (loop_step remote_source config fuel0 (initial_state config w)
               (package_name config) 0 [] eq_refl) in Hrun.
    assert (Hroot : package_name config
                    ∈ visited_packages
                        (bfs_iteration remote_source config (package_name config) 0
                           (with_queue [] (initial_state config w)))).
    { destruct (iteration_cases remote_source config (package_name config) 0
                  (with_queue [] (initial_state config w)))
        as [[Hin _]|[_ (w' & call & stored & added & -> & _)]];
        [simpl in Hin; set_solver | simpl; set_solver]. }
    destruct (loop_keeps_visited _ _ _ _ _ _ Hrun Hroot) as [Hin _].
    apply (inv_visited _ _ HI) in Hin.
    destruct (dependency_graph st) as [|first rest]; [inversion Hin | eauto]. }
  destruct Hkey as (first & rest & Hgraph).
  destruct (print_tree_node_returns config (dependency_graph st)
              (length (dependency_graph st)) (package_name config) 0 ∅)
    as [lines Hlines].
  { unfold keys_off_path, Dict.keys.
    etransitivity; [apply length_filter|]. now rewrite length_map. }
  assert (Hhead : exists below, lines = package_name config :: below).
  { cbn [_print_tree_node] in Hlines.
    destruct (decide (package_name config ∈ (∅ : gset string))) as [H|_];
      [set_solver|].
    destruct (match Dict.get (package_name config) (dependency_graph st) with
              | Some dependencies => _
              | None => _
              end) as [below|]; [|discriminate].
    injection Hlines as <- _. eauto. }
  destruct Hhead as [below ->].
  exists st, below. split; [exact Hst|].
  intros fuel Hfuel. unfold print_ascii_tree. rewrite Hgraph, <- Hgraph.
  rewrite (print_tree_node_fuel_mono config (dependency_graph st)
             (S (length (dependency_graph st))) fuel _ _ _ _ ltac:(lia) Hlines).
  reflexivity.
Qed.

(** ** Validation, configuration and the flat listing *)

Lemma split_nonempty (sep : ascii) (s : string) :
  (1 <= length (PyStr.split sep s))%nat.
Proof.
  induction s as [|c s IH]; simpl; [lia|].
  destruct (Ascii.eqb c sep); simpl; [lia|].
  destruct (PyStr.split sep s); simpl in *; lia.
Qed.

(** A string contains a character exactly when splitting at it gives at
    least two pieces. *)
Lemma contains_char_split (sep : ascii) (s : string) :
  PyStr.contains (String sep EmptyString) s = true <->
  (2 <= length (PyStr.split sep s))%nat.
Proof.
  induction s as [|c s IH]; simpl.
  - split; [discriminate | lia].
  - rewrite (Ascii.eqb_sym sep c).
    destruct (Ascii.eqb c sep); simpl.
    + pose proof (split_nonempty sep s). split; [lia | reflexivity].
    + rewrite IH. pose proof (split_nonempty sep s).
      destruct (PyStr.split sep s); simpl in *; lia.
Qed.

(** X10. [_validate_arguments] returns true exactly when the package splits
    at [:] into at least two pieces, the depth is positive, and the URL is
    absent, empty or starts with [http://] or [https://]; it writes to the
    error stream exactly when it returns false, and it changes nothing in
    the arguments but the test-mode flag. *)
Theorem validation_accepts_iff (args : Args) :
  let '(args', stderr, accepted) := _validate_arguments args in
  (accepted = true <->
   (2 <= length (PyStr.split ":" (arg_package args)))%nat /\
   0 < arg_max_depth args /\
   (truthy (arg_url args) = false \/
    has_web_scheme (py_format (arg_url args)) = true)) /\
  (stderr = [] <-> accepted = true) /\
  args' = mkArgs (arg_package args) (arg_url args) (arg_test_repo args')
                 (arg_tree args) (arg_max_depth args) (arg_filter args)
                 (arg_visualize args).
Proof.
  unfold _validate_arguments, validation_errors.
  pose proof (contains_char_split ":" (arg_package args)) as Hsplit.
  destruct args as [package url test_repo tree depth substring vis]; simpl in *.
  destruct (PyStr.contains ":" package);
    destruct (Z.leb_spec depth 0) as [Hdepth|Hdepth];
    destruct (truthy url);
    destruct (has_web_scheme (py_format url));
    destruct test_repo; simpl;
    (split; [|split; [|reflexivity]]);
    intuition (discriminate || lia || auto).
Qed.

(** X11. For arguments that [_validate_arguments] accepts, the
    configuration that [_convert_args_to_config] builds from them has a
    positive depth; in remote mode it holds a repository URL that starts
    with [http://] or [https://], and it is in test mode exactly when the
    test flag was given or no non-empty URL was. *)
Theorem validated_configuration (args args' : Args) (stderr : list string) :
  _validate_arguments args = (args', stderr, true) ->
  let config := _convert_args_to_config args' in
  package_name (engine config) = arg_package args /\
  filter_substring (engine config) = arg_filter args /\
  0 < max_depth (engine config) /\
  (mode (engine config) = Test <->
   arg_test_repo args = true \/ truthy (arg_url args) = false) /\
  match mode (engine config) with
  | Remote =>
      exists url, repository config = RepositoryUrl (Some url) /\
                  has_web_scheme url = true
  | Test => repository config = RepositoryPath
  end.
Proof.
  unfold _validate_arguments, validation_errors.
  destruct args as [package url test_repo tree depth substring vis]. simpl.
  destruct (PyStr.contains ":" package);
    destruct (Z.leb_spec depth 0);
    destruct url as [[|c u]|]; simpl;
    try destruct (has_web_scheme (String c u)) eqn:Hweb;
    destruct test_repo; simpl; intros [= <- <-]; simpl;
    repeat split; try lia; try tauto; try discriminate; eauto;
    try (intros [H|H]; discriminate).
Qed.

Lemma validated_configuration_maven_central :
  let config :=
    _convert_args_to_config
      (mkArgs "junit:junit" (Some "https://repo1.maven.org/maven2") false true 3
              None false) in
  package_name (engine config) = "junit:junit" /\
  filter_substring (engine config) = None /\
  0 < max_depth (engine config) /\
  (mode (engine config) = Test <->
   false = true \/ truthy (Some "https://repo1.maven.org/maven2") = false) /\
  match mode (engine config) with
  | Remote =>
      exists url, repository config = RepositoryUrl (Some url) /\
                  has_web_scheme url = true
  | Test => repository config = RepositoryPath
  end.
Proof.
  apply (validated_configuration
           (mkArgs "junit:junit" (Some "https://repo1.maven.org/maven2") false true 3
                   None false) _ []).
  reflexivity.
Defined.

(** A root whose list of dependencies is empty gives the graph with the
    root as its only key. *)
Lemma leaf_root_graph {L : StrLower} {World : Type}
    (remote_source : World -> string -> string -> World * option (list Dep))
    (config : Config) (w : World) :
  (get_package_dependencies remote_source config w (package_name config) 0).2 = [] ->
  exists st,
    build_returns remote_source config w st /\
    dependency_graph st = [(package_name config, [])].
Proof.
  intros Hleaf.
  destruct (get_package_dependencies remote_source config w (package_name config) 0)
    as [[w' call] dependencies] eqn:Hget.
  simpl in Hleaf. subst dependencies.
  assert (Hrun : exists st,
             build_dependency_graph remote_source config 1 w = Some st /\
             dependency_graph st = [(package_name config, [])]).
  { unfold build_dependency_graph.
    rewrite (loop_step remote_source config 0 (initial_state config w)
               (package_name config) 0 [] eq_refl).
    rewrite (iteration_fresh _ _ _ _ _ w' call []); cycle 1.
    - simpl. set_solver.
    - exact Hget.
    - cbv zeta. rewrite apply_filter_nil.
      destruct (0 + 1 <? max_depth config); simpl; eexists; split; reflexivity. }
  destruct Hrun as [st [Hrun Hgraph]].
  exists st. split; [now exists 1%nat | exact Hgraph].
Qed.

(** X12. Validation does not protect the builder from a root with more
    than one [:]. Such a package is accepted, and the build then records it
    as a leaf: the graph has the root as its only key, with an empty list,
    and the flat listing reports that no direct dependency was found. *)
Theorem validated_root_may_be_a_leaf {L : StrLower} {World : Type}
    (remote_source : World -> string -> string -> World * option (list Dep))
    (args args' : Args) (stderr : list string) (w : World) :
  _validate_arguments args = (args', stderr, true) ->
  (2 < length (PyStr.split ":" (arg_package args)))%nat ->
  let config := engine (_convert_args_to_config args') in
  exists st,
    build_returns remote_source config w st /\
    dependency_graph st = [(arg_package args, [])] /\
    print_direct_dependencies config (dependency_graph st)
    = ["Прямые зависимости не найдены"].
Proof.
  intros Hvalid Hsplit config.
  assert (Hpkg : package_name config = arg_package args).
  { unfold _validate_arguments in Hvalid.
    destruct (validation_errors args); [|discriminate].
    injection Hvalid as <- _.
    unfold config. now destruct (_ && _). }
  destruct (leaf_root_graph remote_source config w) as [st [Hst Hgraph]].
  - rewrite get_package_dependencies_malformed; [reflexivity|].
    rewrite Hpkg. lia.
  - exists st. split; [exact Hst|]. rewrite Hgraph, Hpkg. split; [reflexivity|].
    unfold print_direct_dependencies. rewrite Hpkg. simpl.
    now rewrite String.eqb_refl.
Qed.

Lemma validated_root_with_two_colons :
  let config :=
    engine (_convert_args_to_config (mkArgs "a:b:c" None true false 3 None false)) in
  exists st,
    build_returns diamond_source config tt st /\
    dependency_graph st = [("a:b:c", [])] /\
    print_direct_dependencies config (dependency_graph st)
    = ["Прямые зависимости не найдены"].
Proof.
  apply (validated_root_may_be_a_leaf diamond_source
           (mkArgs "a:b:c" None false false 3 None false) _ [] tt).
  - reflexivity.
  - vm_compute. lia.
Defined.

Lemma direct_dependency_lines_numbered (i : Z) (dependencies : list Dep) :
  direct_dependency_lines i dependencies
  = imap (fun j dep =>
            rjust2 (pretty (i + Z.of_nat j)) +:+ ". " +:+ dep_str dep)
         dependencies.
Proof.
  revert i. induction dependencies as [|dep l IH]; intros i; [reflexivity|].
  cbn [direct_dependency_lines imap]. rewrite IH, Z.add_0_r. f_equal.
  apply imap_ext. intros j x _. simpl.
  now replace (i + 1 + Z.of_nat j) with (i + Z.of_nat (S j)) by lia.
Qed.

(** X13. When the root has a non-empty list in the graph, the flat listing
    is made of three print calls more than there are records: the title,
    which begins with a line feed and shows the number of records, a rule
    of sixty dashes, one line per stored record in the stored order, and
    the same rule again. The line of a record is its number, counted from
    1 and right-aligned in a field of two characters, a full stop, a space
    and [group:artifact:version]; for the first nine records the number is
    one space and one digit. *)
Theorem direct_dependencies_listing (config : Config) (dependency_graph : Dict.t)
    (dependencies : list Dep) :
  Dict.get (package_name config) dependency_graph = Some dependencies ->
  dependencies <> [] ->
  print_direct_dependencies config dependency_graph
  = (LF +:+ "Прямые зависимости ("
        +:+ pretty (Z.of_nat (length dependencies)) +:+ "):")
      :: "------------------------------------------------------------"
      :: imap (fun j dep =>
                 let number := pretty (1 + Z.of_nat j) in
                 (PyStr.repeat " " (2 - Z.of_nat (String.length number))
                  +:+ number)
                 +:+ ". " +:+ groupId dep +:+ ":" +:+ artifactId dep
                 +:+ ":" +:+ version dep)
              dependencies
      ++ ["------------------------------------------------------------"] /\
  (forall (j : nat) (dep : Dep),
     (j < 9)%nat -> dependencies !! j = Some dep ->
     print_direct_dependencies config dependency_graph !! (2 + j)%nat
     = Some (" " +:+ pretty (1 + Z.of_nat j) +:+ ". " +:+ groupId dep
             +:+ ":" +:+ artifactId dep +:+ ":" +:+ version dep)) /\
  length (print_direct_dependencies config dependency_graph)
  = (length dependencies + 3)%nat.
Proof.
  intros Hget Hne.
  assert (Hlines :
    print_direct_dependencies config dependency_graph
    = (LF +:+ "Прямые зависимости ("
          +:+ pretty (Z.of_nat (length dependencies)) +:+ "):")
        :: "------------------------------------------------------------"
        :: imap (fun j dep =>
                   let number := pretty (1 + Z.of_nat j) in
                   (PyStr.repeat " " (2 - Z.of_nat (String.length number))
                    +:+ number)
                   +:+ ". " +:+ groupId dep +:+ ":" +:+ artifactId dep
                   +:+ ":" +:+ version dep)
                dependencies
        ++ ["------------------------------------------------------------"]).
  { unfold print_direct_dependencies. rewrite Hget.
    destruct dependencies as [|dep l]; [contradiction|].
    rewrite direct_dependency_lines_numbered. reflexivity. }
  split; [exact Hlines|]. split.
  - intros j dep Hj Hdep. rewrite Hlines.
    cbn [Nat.add]. rewrite !lookup_cons.
    rewrite lookup_app_l by (rewrite length_imap; now apply lookup_lt_Some in Hdep).
    rewrite list_lookup_imap, Hdep. cbn [fmap option_fmap option_map].
    do 9 (destruct j as [|j]; [reflexivity|]). lia.
  - rewrite Hlines. cbn [length]. rewrite length_app, length_imap. simpl. lia.
Qed.

Lemma direct_dependencies_listing_diamond :
  print_direct_dependencies (diamond_config 3) diamond_graph
  = [LF +:+ "Прямые зависимости (2):";
     "------------------------------------------------------------";
     " 1. b:b:1.0";
     " 2. c:c:1.0";
     "------------------------------------------------------------"].
Proof.
  rewrite (proj1 (direct_dependencies_listing (diamond_config 3) diamond_graph
                    [mkDep "b" "b" "1.0"; mkDep "c" "c" "1.0"] eq_refl
                    ltac:(discriminate))).
  vm_compute. reflexivity.
Defined.

(** The entry of the root in a built graph. *)
Lemma build_root_entry {L : StrLower} {World : Type}
    (remote_source : World -> string -> string -> World * option (list Dep))
    (config : Config) (w : World) :
  exists st,
    build_returns remote_source config w st /\
    Dict.get (package_name config) (dependency_graph st)
    = Some (_apply_filter config
              (get_package_dependencies remote_source config w
                 (package_name config) 0).2).
Proof.
  destruct (loop_returns remote_source config (initial_state config w))
    as [fuel [final Hrun]].
  exists final. split; [now exists fuel|].
  destruct fuel as [|fuel]; [discriminate|].
  rewrite (loop_step remote_source config fuel (initial_state config w)
             (package_name config) 0 [] eq_refl) in Hrun.
  destruct (get_package_dependencies remote_source config w (package_name config) 0)
    as [[w' call] dependencies] eqn:Hget.
  rewrite (iteration_fresh remote_source config (package_name config) 0
             (with_queue [] (initial_state config w)) w' call dependencies)
    in Hrun; [|simpl; set_solver|exact Hget].
  cbv zeta in Hrun.
  destruct (loop_keeps_visited _ _ _ _ _ (package_name config) Hrun) as [_ ->];
    [simpl; set_solver|].
  simpl. now rewrite String.eqb_refl.
Qed.

(** X14. After a build the flat listing shows the filtered list that
    [get_package_dependencies] gave for the root at depth 0: it reports
    that no direct dependency was found exactly when this list is empty,
    never because the root is missing from the graph, and otherwise it
    lists the records of this list. *)
Theorem listing_after_build {L : StrLower} {World : Type}
    (remote_source : World -> string -> string -> World * option (list Dep))
    (config : Config) (w : World) :
  exists st,
    build_returns remote_source config w st /\
    print_direct_dependencies config (dependency_graph st)
    = match _apply_filter config
              (get_package_dependencies remote_source config w
                 (package_name config) 0).2 with
      | [] => ["Прямые зависимости не найдены"]
      | dep :: dependencies =>
          [LF +:+ "Прямые зависимости ("
              +:+ pretty (Z.of_nat (length (dep :: dependencies))) +:+ "):";
           PyStr.repeat "-" 60]
          ++ direct_dependency_lines 1 (dep :: dependencies)
          ++ [PyStr.repeat "-" 60]
      end.
Proof.
  destruct (build_root_entry remote_source config w) as [st [Hst Hget]].
  exists st. split; [exact Hst|].
  unfold print_direct_dependencies. rewrite Hget.
  now destruct (_apply_filter config _).
Qed.

(** ** Parsing the documents of the remote repository *)

Lemma descendants_unfold (tag : string) (text : option string)
    (children : list Element) :
  descendants (mkElement tag text children)
  = flat_map (fun c => c :: descendants c) children.
Proof.
  simpl. induction children as [|c l IH]; [reflexivity|].
  simpl. now rewrite IH.
Qed.

Lemma children_below (e c : Element) :
  In c (elem_children e) -> In c (descendants e).
Proof.
  destruct e as [tag text children]. rewrite descendants_unfold. simpl.
  intros Hc. apply in_flat_map. exists c. split; [assumption | now left].
Qed.

(** What is below an element below [e] is below [e]. *)
Lemma descendants_below (e d c : Element) :
  In d (descendants e) -> In c (descendants d) -> In c (descendants e).
Proof.
  revert d. induction e as [tag text children IH] using Element_children_ind.
  intros d Hd Hc. rewrite descendants_unfold in *.
  apply in_flat_map in Hd as [x [Hx Hd]].
  apply in_flat_map. exists x. split; [assumption|].
  destruct Hd as [<-|Hd]; [now right|].
  right. rewrite List.Forall_forall in IH. exact (IH x Hx d Hd Hc).
Qed.

Lemma find_tag (name : string) (l : list Element) (e : Element) :
  List.find (fun c => String.eqb (elem_tag c) name) l = Some e ->
  In e l /\ elem_tag e = name.
Proof.
  intros H. apply List.find_some in H as [Hin Htag].
  split; [assumption | now apply String.eqb_eq].
Qed.

(** A document without an element of the plain tag [dependency] below its
    root gives no dependency. *)
Lemma parse_without_plain_dependency (fromstring : string -> option Element)
    (pom_content : string) (root : Element) :
  fromstring pom_content = Some root ->
  (forall e, In e (descendants root) -> elem_tag e <> "dependency") ->
  _parse_dependencies_from_pom fromstring pom_content = Some [].
Proof.
  intros Hparse Hplain. unfold _parse_dependencies_from_pom. rewrite Hparse.
  assert (Hnone : forall de, In de (descendants root) ->
                    findall "dependency" de = []).
  { intros de Hde. unfold findall.
    induction (elem_children de) as [|c l IH] eqn:Hchildren in Hde |- *.
    - reflexivity.
    - assert (Hall : forall x, In x (c :: l) -> elem_tag x <> "dependency").
      { intros x Hx. apply Hplain. apply (descendants_below root de x Hde).
        apply children_below. now rewrite Hchildren. }
      clear Hchildren IH. induction (c :: l) as [|x xs IHx]; [reflexivity|].
      simpl. destruct (String.eqb_spec (elem_tag x) "dependency") as [Heq|_].
      + exfalso. apply (Hall x); [now left | assumption].
      + apply IHx. intros y Hy. apply Hall. now right. }
  unfold find_below.
  destruct (List.find _ (descendants root)) as [de|] eqn:Hfirst.
  - apply find_tag in Hfirst as [Hde _]. now rewrite (Hnone de Hde).
  - destruct (List.find (fun c => String.eqb (elem_tag c) (maven_tag "dependencies"))
                (descendants root)) as [de|] eqn:Hsecond; [|reflexivity].
    apply find_tag in Hsecond as [Hde _]. now rewrite (Hnone de Hde).
Qed.

(** X15. A POM whose elements below the root all carry a namespace, as the
    POMs of Maven repositories do, yields no dependency at all: the
    [dependencies] element is found through the Maven namespace, but its
    children are looked up by the plain tag [dependency]. *)
Theorem namespaced_pom_has_no_dependencies (fromstring : string -> option Element)
    (pom_content : string) (root : Element) :
  fromstring pom_content = Some root ->
  (forall e, In e (descendants root) -> PyStr.startswith "{" (elem_tag e) = true) ->
  _parse_dependencies_from_pom fromstring pom_content = Some [].
Proof.
  intros Hparse Hqualified.
  apply (parse_without_plain_dependency fromstring pom_content root Hparse).
  intros e He Htag. specialize (Hqualified e He).
  rewrite Htag in Hqualified. discriminate.
Qed.

Lemma namespaced_pom_example :
  _parse_dependencies_from_pom (fun _ => Some namespaced_pom) "pom" = Some [].
Proof.
  apply (namespaced_pom_has_no_dependencies (fun _ => Some namespaced_pom) "pom"
           namespaced_pom eq_refl).
  intros e He. vm_compute in He.
  repeat (destruct He as [<-|He]; [reflexivity|]). destruct He.
Defined.

(** X17. Against a repository none of whose documents has an element with
    the plain tag [dependency] below its root (so against every repository
    that serves namespace-qualified POMs), a build in remote mode finds no
    dependency: the graph has the root as its only key, with an empty
    list. *)
Theorem remote_build_of_namespaced_repository {L : StrLower} {World : Type}
    (fromstring : string -> option Element)
    (urlopen : World -> string -> World * option string)
    (config : RunConfig) (w : World) :
  mode (engine config) = Remote ->
  (forall content root, fromstring content = Some root ->
     forall e, In e (descendants root) -> elem_tag e <> "dependency") ->
  exists st,
    build_returns (remote_repository fromstring urlopen config) (engine config) w st /\
    dependency_graph st = [(package_name (engine config), [])].
Proof.
  intros Hmode Hplain. apply leaf_root_graph.
  unfold get_package_dependencies, source_dependencies.
  destruct (0 >=? max_depth (engine config)); [reflexivity|].
  destruct (PyStr.split ":" (package_name (engine config))) as [|g [|a [|x l]]];
    try reflexivity.
  rewrite Hmode. unfold remote_repository.
  destruct (_download_pom_file fromstring urlopen config w g a "latest")
    as [w1 [pom_content|]]; [|reflexivity].
  destruct (fromstring pom_content) as [root|] eqn:Hparse.
  - now rewrite (parse_without_plain_dependency fromstring pom_content root
                   Hparse (Hplain pom_content root Hparse)).
  - unfold _parse_dependencies_from_pom. now rewrite Hparse.
Qed.

Lemma remote_build_of_namespaced_repository_example :
  _download_pom_file example_fromstring example_urlopen example_run_config tt
    "com.example" "app" "latest"
  = (tt, Some "pom") /\
  example_fromstring "pom" = Some namespaced_pom /\
  remote_repository example_fromstring example_urlopen example_run_config tt
    "com.example" "app"
  = (tt, Some []) /\
  exists st,
    build_returns
      (remote_repository example_fromstring example_urlopen example_run_config)
      (engine example_run_config) tt st /\
    dependency_graph st = [("com.example:app", [])].
Proof.
  split; [vm_compute; reflexivity|]. split; [reflexivity|].
  split; [vm_compute; reflexivity|].
  apply (remote_build_of_namespaced_repository
           example_fromstring example_urlopen example_run_config tt).
  - reflexivity.
  - intros content root Hparse e He. unfold example_fromstring in Hparse.
    destruct (String.eqb content "metadata").
    + injection Hparse as <-. vm_compute in He.
      repeat (destruct He as [<-|He]; [discriminate|]). destruct He.
    + destruct (String.eqb content "pom"); [|discriminate].
      injection Hparse as <-. vm_compute in He.
      repeat (destruct He as [<-|He]; [discriminate|]). destruct He.
Defined.

(** *** The order of strings and the greatest listed version *)

Lemma ascii_compare_refl (a : ascii) : Ascii.compare a a = Eq.
Proof. apply N.compare_refl. Qed.

Lemma string_compare_refl (s : string) : String.compare s s = Eq.
Proof.
  induction s as [|a s IH]; [reflexivity|].
  simpl. now rewrite ascii_compare_refl.
Qed.

Lemma string_compare_lt_trans (s1 s2 s3 : string) :
  String.compare s1 s2 = Lt -> String.compare s2 s3 = Lt ->
  String.compare s1 s3 = Lt.
Proof.
  revert s2 s3. induction s1 as [|a s1 IH]; intros [|b s2] [|c s3]; simpl;
    try discriminate; try reflexivity.
  destruct (Ascii.compare a b) eqn:Hab; try discriminate;
    destruct (Ascii.compare b c) eqn:Hbc; try discriminate.
  - apply Ascii.compare_eq_iff in Hab as ->. rewrite Hbc. apply IH.
  - apply Ascii.compare_eq_iff in Hab as ->. now rewrite Hbc.
  - apply Ascii.compare_eq_iff in Hbc as <-. now rewrite Hab.
  - unfold Ascii.compare in *. rewrite N.compare_lt_iff in *.
    assert (H : (Ascii.N_of_ascii a < Ascii.N_of_ascii c)%N) by lia.
    apply N.compare_lt_iff in H. now rewrite H.
Qed.

Lemma string_leb_refl (s : string) : String.leb s s = true.
Proof. unfold String.leb. now rewrite string_compare_refl. Qed.

Lemma string_leb_trans (s1 s2 s3 : string) :
  String.leb s1 s2 = true -> String.leb s2 s3 = true -> String.leb s1 s3 = true.
Proof.
  unfold String.leb.
  destruct (String.compare s1 s2) eqn:H12; try discriminate;
    destruct (String.compare s2 s3) eqn:H23; try discriminate; intros _ _.
  - apply String.compare_eq_iff in H12 as ->. now rewrite H23.
  - apply String.compare_eq_iff in H12 as ->. now rewrite H23.
  - apply String.compare_eq_iff in H23 as <-. now rewrite H12.
  - now rewrite (string_compare_lt_trans _ _ _ H12 H23).
Qed.

(** [string_max] returns an element of its list that no element exceeds. *)
Lemma string_max_greatest (first : string) (rest : list string) :
  In (string_max first rest) (first :: rest) /\
  forall u, In u (first :: rest) -> String.leb u (string_max first rest) = true.
Proof.
  unfold string_max. revert first.
  induction rest as [|v rest IH]; intros first; simpl.
  - split; [now left|]. intros u [<-|[]]. apply string_leb_refl.
  - destruct (IH (if String.ltb first v then v else first)) as [Hin Hge].
    assert (Hstep : String.leb first (if String.ltb first v then v else first) = true
                    /\ String.leb v (if String.ltb first v then v else first) = true).
    { unfold String.ltb, String.leb.
      destruct (String.compare first v) eqn:Hc.
      - apply String.compare_eq_iff in Hc as ->.
        now rewrite string_compare_refl.
      - rewrite Hc, string_compare_refl. auto.
      - rewrite string_compare_refl, String.compare_antisym, Hc. auto. }
    destruct Hstep as [Hfirst Hv]. split.
    + destruct Hin as [Hin|Hin]; [|now right; right].
      rewrite <- Hin. destruct (String.ltb first v); [right; now left | now left].
    + intros u [<-|[<-|Hu]].
      * eapply string_leb_trans; [exact Hfirst | apply Hge; now left].
      * eapply string_leb_trans; [exact Hv | apply Hge; now left].
      * apply Hge. now right.
Qed.

(** X16. [_parse_latest_version] prefers the [latest] element of the
    [versioning] element: when there is one, its text is returned whatever
    else is listed. Without [latest] and [release], when every listed
    version has a text, it returns a listed version; if some listed version
    is not a snapshot, the returned one is not a snapshot and no listed
    non-snapshot exceeds it as a string; if all are snapshots, no listed
    version exceeds it. *)
Theorem latest_version_selection (fromstring : string -> option Element)
    (metadata_content : string) (root versioning : Element) :
  fromstring metadata_content = Some root ->
  find "versioning" root = Some versioning ->
  (forall latest, find "latest" versioning = Some latest ->
     _parse_latest_version fromstring metadata_content
     = Returns (elem_text latest)) /\
  (forall versions texts,
     find "latest" versioning = None ->
     find "release" versioning = None ->
     find "versions" versioning = Some versions ->
     all_texts (map elem_text (findall "version" versions)) = Some texts ->
     texts <> [] ->
     exists v,
       _parse_latest_version fromstring metadata_content = Returns (Some v) /\
       In v texts /\
       (forall u, In u texts -> PyStr.contains "SNAPSHOT" u = false ->
          PyStr.contains "SNAPSHOT" v = false /\ String.leb u v = true) /\
       ((forall u, In u texts -> PyStr.contains "SNAPSHOT" u = true) ->
        forall u, In u texts -> String.leb u v = true)).
Proof.
  intros Hparse Hversioning. unfold _parse_latest_version.
  rewrite Hparse, Hversioning. split.
  - intros latest ->. reflexivity.
  - intros versions texts -> -> -> Htexts Hne.
    destruct (map elem_text (findall "version" versions)) as [|t ts] eqn:Hlist.
    { injection Htexts as <-. contradiction. }
    rewrite Htexts.
    set (stable := List.filter (fun v => negb (PyStr.contains "SNAPSHOT" v)) texts).
    assert (Hstable : forall u, In u stable <->
                        In u texts /\ PyStr.contains "SNAPSHOT" u = false).
    { intros u. unfold stable. rewrite List.filter_In.
      now destruct (PyStr.contains "SNAPSHOT" u). }
    destruct stable as [|v vs] eqn:Hfilter.
    + destruct texts as [|v vs]; [contradiction|].
      destruct (string_max_greatest v vs) as [Hin Hge].
      exists (string_max v vs). repeat split; try assumption.
      * exfalso. now apply (proj2 (Hstable u)).
      * exfalso. now apply (proj2 (Hstable u)).
      * intros _. exact Hge.
    + destruct (string_max_greatest v vs) as [Hin Hge].
      exists (string_max v vs). repeat split.
      * now apply Hstable.
      * now apply Hstable.
      * apply Hge. now apply Hstable.
      * intros Hall u Hu. exfalso.
        assert (Hv : In v (v :: vs)) by now left.
        apply Hstable in Hv as [Hv Hsnap]. rewrite (Hall v Hv) in Hsnap.
        discriminate.
Qed.

Lemma latest_version_of_listed_versions :
  exists v,
    _parse_latest_version (fun _ => Some listed_versions) "metadata"
    = Returns (Some v) /\
    In v ["1.9"; "1.10"; "2.0-SNAPSHOT"] /\
    (forall u, In u ["1.9"; "1.10"; "2.0-SNAPSHOT"] ->
       PyStr.contains "SNAPSHOT" u = false ->
       PyStr.contains "SNAPSHOT" v = false /\ String.leb u v = true) /\
    ((forall u, In u ["1.9"; "1.10"; "2.0-SNAPSHOT"] ->
        PyStr.contains "SNAPSHOT" u = true) ->
     forall u, In u ["1.9"; "1.10"; "2.0-SNAPSHOT"] -> String.leb u v = true).
Proof.
  apply (proj2 (latest_version_selection (fun _ => Some listed_versions) "metadata"
                  listed_versions _ eq_refl eq_refl)
           (mkElement "versions" None
              [mkElement "version" (Some "1.9") [];
               mkElement "version" (Some "1.10") [];
               mkElement "version" (Some "2.0-SNAPSHOT") []]));
    reflexivity || discriminate.
Defined.

(** X18. After a build the two attributes agree: [visited_packages] is the
    set of the keys of [dependency_graph], and the number of packages that
    the build reports, the size of the graph, is the number of visited
    packages. *)
Theorem visited_packages_are_the_graph_keys {L : StrLower} {World : Type}
    (remote_source : World -> string -> string -> World * option (list Dep))
    (config : Config) (w : World) :
  exists st,
    build_returns remote_source config w st /\
    visited_packages st = list_to_set (Dict.keys (dependency_graph st)) /\
    size (visited_packages st) = length (dependency_graph st).
Proof.
  destruct (build_returns_total remote_source config w) as [st Hst].
  exists st. split; [exact Hst|].
  destruct (build_returns_invariant _ _ _ _ Hst) as [HI _].
  assert (Hset : visited_packages st
                 = list_to_set (Dict.keys (dependency_graph st))).
  { apply set_eq. intros k. rewrite elem_of_list_to_set.
    apply (inv_visited _ _ HI). }
  split; [exact Hset|].
  rewrite Hset, size_list_to_set by apply (inv_nodup _ _ HI).
  unfold Dict.keys. apply length_map.
Qed.

(** ** Which packages reach the dependency source *)

Section SourceCalls.

Context {World : Type}.
Context {L : StrLower}.
Variable remote_source : World -> string -> string -> World * option (list Dep).
Variable config : Config.

(** A call of [get_package_dependencies] reaches the source exactly when the
    depth is below the bound and the package has two parts. *)
Lemma get_package_dependencies_called (w w' : World) (package : string)
    (depth : Z) (call : SourceCall) (dependencies : list Dep) :
  get_package_dependencies remote_source config w package depth
  = (w', call, dependencies) ->
  (called call = true <->
   depth < max_depth config /\ length (PyStr.split ":" package) = 2%nat).
Proof.
  unfold get_package_dependencies, source_dependencies.
  destruct (Z.geb_spec depth (max_depth config)) as [Hd|Hd].
  - intros [= <- <- <-]. simpl. split; [discriminate | lia].
  - destruct (PyStr.split ":" package) as [|g [|a [|x l]]];
      try (intros [= <- <- <-]; simpl; split; [discriminate | intros [_ H]; discriminate]).
    destruct (mode config).
    + destruct (remote_source w g a) as [w0 [l|]]; intros [= <- <- <-];
        simpl; split; auto.
    + intros [= <- <- <-]. simpl. split; auto.
Qed.

Lemma loop_calls (fuel : nat) (st final : BfsState World) :
  (forall e, e ∈ expansions st ->
     (called (exp_call e) = true <->
      exp_depth e < max_depth config /\
      length (PyStr.split ":" (exp_package e)) = 2%nat)) ->
  bfs_loop remote_source config fuel st = Some final ->
  forall e, e ∈ expansions final ->
    (called (exp_call e) = true <->
     exp_depth e < max_depth config /\
     length (PyStr.split ":" (exp_package e)) = 2%nat).
Proof.
  revert st. induction fuel as [|fuel IH]; intros st Hst Hrun;
    destruct (queue st) as [|[p d] rest] eqn:Hq;
    try (rewrite loop_done in Hrun by assumption; now injection Hrun as <-).
  - simpl in Hrun. rewrite Hq in Hrun. discriminate.
  - rewrite (loop_step _ _ _ _ _ _ _ Hq) in Hrun.
    refine (IH _ _ Hrun).
    destruct (decide (p ∈ visited_packages (with_queue rest st))) as [Hin|Hnot].
    + rewrite iteration_visited by exact Hin. exact Hst.
    + destruct (iteration_expands remote_source config p d (with_queue rest st) Hnot)
        as (w & call & Hget & ->). cbv zeta. simpl.
      intros e He. apply elem_of_app in He as [He|He]; [now apply Hst|].
      apply list_elem_of_singleton in He as ->. simpl.
      exact (get_package_dependencies_called _ _ _ _ _ _ Hget).
Qed.

End SourceCalls.

(** X19. With a positive depth bound the depth guard of
    [get_package_dependencies] never fires during a build: the dependency
    source is called for exactly those keys of the graph that split at [:]
    into two parts, and the other keys are recorded without a call. *)
Theorem build_fetches_every_well_formed_key {L : StrLower} {World : Type}
    (remote_source : World -> string -> string -> World * option (list Dep))
    (config : Config) (w : World) :
  0 < max_depth config ->
  exists st,
    build_returns remote_source config w st /\
    forall k,
      k ∈ fetched_packages (expansions st) <->
      k ∈ Dict.keys (dependency_graph st) /\
      length (PyStr.split ":" k) = 2%nat.
Proof.
  intros Hdepth.
  destruct (build_returns_total remote_source config w) as [st Hst].
  exists st. split; [exact Hst|].
  destruct (build_returns_invariant _ _ _ _ Hst) as [HI _].
  destruct Hst as [fuel Hrun].
  pose proof (loop_calls remote_source config fuel (initial_state config w) st
                ltac:(intros e He; inversion He) Hrun) as Hcalls.
  assert (Hbelow : forall e, e ∈ expansions st -> exp_depth e < max_depth config).
  { intros e He. destruct (inv_depth _ _ HI e He) as [[_ ->]|H]; lia. }
  intros k. unfold fetched_packages. rewrite (inv_keys _ _ HI), !list_elem_of_fmap.
  split.
  - intros [e [-> He]]. apply list_elem_of_In, List.filter_In in He as [He Hcalled].
    apply list_elem_of_In in He. split; [eauto|]. now apply (Hcalls e He).
  - intros [[e [-> He]] Hparts]. exists e. split; [reflexivity|].
    apply list_elem_of_In, List.filter_In. split; [now apply list_elem_of_In|].
    apply (Hcalls e He). auto.
Qed.

Lemma build_fetches_every_well_formed_key_diamond :
  exists st,
    build_returns diamond_source (diamond_config 2) tt st /\
    forall k,
      k ∈ fetched_packages (expansions st) <->
      k ∈ Dict.keys (dependency_graph st) /\
      length (PyStr.split ":" k) = 2%nat.
Proof.
  apply (build_fetches_every_well_formed_key diamond_source (diamond_config 2) tt).
  reflexivity.
Defined.
